(** * pr2_controllers: gripper calibration and Cartesian wrench control

    A shallow embedding of the two controllers of

    - [pr2_calibration_controllers/src/gripper_calibration_controller.cpp]
    - [robot_mechanism_controllers/src/cartesian_wrench_controller.cpp]

    their constructors, [init], [starting], [command] and [update], with
    the properties of them that the specification states and further
    ones that the code shows.

    Conventions.  A C++ [double] is read as an exact rational number, so
    that a property names the expression the code evaluates; what
    binary64 rounding makes of such an expression is a separate matter,
    settled for the joint constraint by evaluating the same step over
    the machine's floating-point numbers ([ConstraintArithmetic]).  An
    [int] is a 32-bit two's-complement integer carried in [Z] with its
    wrap-around written out; [ros::Time] is a number of nanoseconds.
    Pointers into the robot state ([joint_], [other_joints_]) are indices
    into the robot's vector of joint states, so that two handles naming
    one joint alias. *)

From Stdlib Require Import ZArith QArith Qabs Lia Lqa String.
From Stdlib Require PrimFloat FloatOps SpecFloat.
From stdpp Require Import base tactics option list.

Open Scope Q_scope.

(** ** Scalars *)

Abbreviation double := Q (only parsing).

Definition fabs (x : double) : double := Qabs x.

(** [x < y] on doubles, as a boolean. *)
Definition ltb (x y : double) : bool := negb (Qle_bool y x).

(** ** Machine integers *)

Definition INT_MAX : Z := 2147483647.

(** Reduction of an integer to the range of a 32-bit [int]. *)
Definition to_int (z : Z) : Z := ((z + 2147483648) mod 4294967296 - 2147483648)%Z.

(** ** Time *)

(** [ros::Time] and [ros::Duration], in nanoseconds. *)
Abbreviation Time := Z (only parsing).

(** [ros::Duration(0.5)] *)
Definition Duration_half_second : Z := 500000000%Z.

(** * The gripper calibration controller *)

Module GripperCalibrationController.

Inductive State : Type :=
| INITIALIZED | BEGINNING | STARTING | CLOSING | CALIBRATED.

#[global] Instance State_eq_dec : EqDecision State.
Proof. solve_decision. Defined.

(** [pr2_mechanism_model::JointState], the fields the controller touches. *)
Record JointState : Type := mkJointState {
  velocity_ : double;
  calibrated_ : bool;
  commanded_effort_ : double
}.

(** [pr2_hardware_interface::ActuatorState] *)
Record ActuatorState : Type := mkActuatorState {
  position_ : double;
  zero_offset_ : double
}.

Definition set_calibrated (b : bool) (j : JointState) : JointState :=
  {| velocity_ := velocity_ j; calibrated_ := b;
     commanded_effort_ := commanded_effort_ j |}.

Definition set_velocity (v : double) (j : JointState) : JointState :=
  {| velocity_ := v; calibrated_ := calibrated_ j;
     commanded_effort_ := commanded_effort_ j |}.

Definition set_effort (e : double) (j : JointState) : JointState :=
  {| velocity_ := velocity_ j; calibrated_ := calibrated_ j;
     commanded_effort_ := e |}.

(** What the controller reaches through [robot_], [joint_], [actuator_]
    and the publisher's mutex: the shared store it reads and writes. *)
Record World : Type := mkWorld {
  joint_states_ : list JointState;
  actuator_ : ActuatorState;
  getTime : Time;
  (** whether [pub_calibrated_->trylock()] succeeds when called now *)
  trylock : bool
}.

Section Servo.

(** The inner velocity servo [vc_] keeps state of its own between ticks
    (its PID terms); its control law, from that state, the setpoint, the
    joint's state and the time to the new state and the effort, is left
    open. *)
Context {ServoMem : Type}.
Variable servo_law :
  ServoMem -> double -> JointState -> Time -> ServoMem * double.

(** Modelled from the spec: the joint velocity controller [vc_]
    (robot_mechanism_controllers' JointVelocityController, not among the
    sources).  It holds a velocity setpoint; [setCommand] overwrites the
    setpoint; [update] converts the setpoint into an effort for the joint
    and touches nothing else. *)
Record JointVelocityController : Type := mkVC {
  command_ : double;
  mem_ : ServoMem
}.

Definition setCommand (cmd : double) (vc : JointVelocityController)
  : JointVelocityController :=
  {| command_ := cmd; mem_ := mem_ vc |}.

Definition vc_update (vc : JointVelocityController) (j : nat)
    (js : list JointState) (now : Time)
  : JointVelocityController * list JointState :=
  match js !! j with
  | Some jt =>
      let '(m, e) := servo_law (mem_ vc) (command_ vc) jt now in
      ({| command_ := command_ vc; mem_ := m |}, <[ j := set_effort e jt ]> js)
  | None => (vc, js)
  end.

Record Controller : Type := mkController {
  state_ : State;
  count_ : Z;
  stop_count_ : Z;
  last_publish_time_ : Time;
  search_velocity_ : double;
  joint_ : nat;
  other_joints_ : list nat;
  vc_ : JointVelocityController;
  (** whether [pub_calibrated_] points to a publisher *)
  pub_calibrated_ : bool
}.

Definition with_state (s : State) (c : Controller) : Controller :=
  {| state_ := s; count_ := count_ c; stop_count_ := stop_count_ c;
     last_publish_time_ := last_publish_time_ c;
     search_velocity_ := search_velocity_ c; joint_ := joint_ c;
     other_joints_ := other_joints_ c; vc_ := vc_ c;
     pub_calibrated_ := pub_calibrated_ c |}.

Definition with_count (n : Z) (c : Controller) : Controller :=
  {| state_ := state_ c; count_ := n; stop_count_ := stop_count_ c;
     last_publish_time_ := last_publish_time_ c;
     search_velocity_ := search_velocity_ c; joint_ := joint_ c;
     other_joints_ := other_joints_ c; vc_ := vc_ c;
     pub_calibrated_ := pub_calibrated_ c |}.

Definition with_stop_count (n : Z) (c : Controller) : Controller :=
  {| state_ := state_ c; count_ := count_ c; stop_count_ := n;
     last_publish_time_ := last_publish_time_ c;
     search_velocity_ := search_velocity_ c; joint_ := joint_ c;
     other_joints_ := other_joints_ c; vc_ := vc_ c;
     pub_calibrated_ := pub_calibrated_ c |}.

Definition with_last_publish_time (t : Time) (c : Controller) : Controller :=
  {| state_ := state_ c; count_ := count_ c; stop_count_ := stop_count_ c;
     last_publish_time_ := t;
     search_velocity_ := search_velocity_ c; joint_ := joint_ c;
     other_joints_ := other_joints_ c; vc_ := vc_ c;
     pub_calibrated_ := pub_calibrated_ c |}.

Definition with_vc (vc : JointVelocityController) (c : Controller)
  : Controller :=
  {| state_ := state_ c; count_ := count_ c; stop_count_ := stop_count_ c;
     last_publish_time_ := last_publish_time_ c;
     search_velocity_ := search_velocity_ c; joint_ := joint_ c;
     other_joints_ := other_joints_ c; vc_ := vc;
     pub_calibrated_ := pub_calibrated_ c |}.

Definition with_joints (js : list JointState) (w : World) : World :=
  {| joint_states_ := js; actuator_ := actuator_ w;
     getTime := getTime w; trylock := trylock w |}.

Definition with_zero_offset (z : double) (w : World) : World :=
  {| joint_states_ := joint_states_ w;
     actuator_ := {| position_ := position_ (actuator_ w); zero_offset_ := z |};
     getTime := getTime w; trylock := trylock w |}.

(** [for (i...) other_joints_[i]->calibrated_ = true;] *)
Definition calibrate_others (others : list nat) (js : list JointState)
  : list JointState :=
  foldl (fun acc i => alter (set_calibrated true) i acc) js others.

(** The [switch (state_)] of [update()]: the new controller, the new
    world, and whether the calibrated event was published. *)
Definition switch_state (c : Controller) (w : World)
  : Controller * World * bool :=
  match state_ c with
  | INITIALIZED =>
      (with_state BEGINNING c, w, false)
  | BEGINNING =>
      let c := with_count 0 c in
      let c := with_stop_count 0 c in
      let w := with_joints
                 (alter (set_calibrated false) (joint_ c) (joint_states_ w)) w in
      let w := with_zero_offset 0 w in
      let c := with_vc (setCommand (search_velocity_ c) (vc_ c)) c in
      (with_state STARTING c, w, false)
  | STARTING =>
      let c := with_count (to_int (count_ c + 1)) c in
      if (500 <? count_ c)%Z
      then (with_state CLOSING (with_stop_count 0 (with_count 0 c)), w, false)
      else (c, w, false)
  | CLOSING =>
      let v := default 0 (velocity_ <$> joint_states_ w !! joint_ c) in
      let c := if ltb (fabs v) 0.0001
               then with_stop_count (to_int (stop_count_ c + 1)) c
               else with_stop_count 0 c in
      if (100 <? stop_count_ c)%Z
      then
        let w := with_zero_offset (position_ (actuator_ w)) w in
        let c := with_state CALIBRATED c in
        let w := with_joints
                   (alter (set_calibrated true) (joint_ c) (joint_states_ w)) w in
        let w := with_joints
                   (calibrate_others (other_joints_ c) (joint_states_ w)) w in
        let c := with_vc (setCommand 0 (vc_ c)) c in
        (c, w, false)
      else (c, w, false)
  | CALIBRATED =>
      if pub_calibrated_ c
      then
        if (last_publish_time_ c + Duration_half_second <? getTime w)%Z
        then
          if trylock w
          then (with_last_publish_time (getTime w) c, w, true)
          else (c, w, false)
        else (c, w, false)
      else (c, w, false)
  end.

(** [GripperCalibrationController::update()] *)
Definition update (c : Controller) (w : World) : Controller * World * bool :=
  let '(c1, w1, published) := switch_state c w in
  match state_ c with
  | INITIALIZED => (c1, w1, published)
  | _ =>
      if decide (state_ c1 <> CALIBRATED)
      then
        let '(vc, js) :=
          vc_update (vc_ c1) (joint_ c1) (joint_states_ w1) (getTime w1) in
        (with_vc vc c1, with_joints js w1, published)
      else (c1, w1, published)
  end.

(** A controller before its first tick.  The constructor gives
    [state_(INITIALIZED), last_publish_time_(0)] and leaves the two
    counters uninitialised, so they hold whatever [n], [m] the memory
    holds.  The constructor's [joint_(NULL)] and the null publisher have
    no counterpart in [Controller], whose [joint_] is a handle that
    exists: the search velocity, the handles and the servo are those
    given, and the publisher is there, as after a successful [init], the
    only way to a first tick that passes [assert(joint_)].  [init]
    overwrites every one of these members but [other_joints_], to which
    it appends. *)
Definition construct (n m : Z) (velocity : double) (joint : nat)
    (others : list nat) (vc : JointVelocityController) : Controller :=
  {| state_ := INITIALIZED; count_ := n; stop_count_ := m;
     last_publish_time_ := 0%Z; search_velocity_ := velocity;
     joint_ := joint; other_joints_ := others; vc_ := vc;
     pub_calibrated_ := true |}.

(** ** Ticks *)

(** What the hardware and the other threads change between two ticks:
    the primary joint's measured velocity, the actuator's raw position,
    the clock, and the state of the publisher's lock. *)
Record Input : Type := mkInput {
  in_velocity : double;
  in_position : double;
  in_time : Time;
  in_trylock : bool
}.

Definition sense (i : Input) (c : Controller) (w : World) : World :=
  {| joint_states_ :=
       alter (set_velocity (in_velocity i)) (joint_ c) (joint_states_ w);
     actuator_ := {| position_ := in_position i;
                     zero_offset_ := zero_offset_ (actuator_ w) |};
     getTime := in_time i;
     trylock := in_trylock i |}.

Definition System : Type := Controller * World.

Definition tick (i : Input) (s : System) : System * bool :=
  let '(c, w, p) := update (fst s) (sense i (fst s) (snd s)) in ((c, w), p).

(** The system after a finite sequence of ticks. *)
Definition run (ins : list Input) (s : System) : System :=
  foldl (fun s i => fst (tick i s)) s ins.

(** The system after the first [n] ticks of an endless sequence. *)
Fixpoint run_stream (ins : nat -> Input) (n : nat) (s : System) : System :=
  match n with
  | O => s
  | S n' => fst (tick (ins n') (run_stream ins n' s))
  end.

(** The sample counts towards the stall debounce. *)
Definition stalled (i : Input) : bool := ltb (fabs (in_velocity i)) 0.0001.

(** What the tail of [update] (the call of [vc_.update()]) preserves of
    the outcome of the [switch]. *)
Record same_but_servo (c1 c2 : Controller) (w1 w2 : World) : Prop := {
  sbs_state : state_ c2 = state_ c1;
  sbs_count : count_ c2 = count_ c1;
  sbs_stop_count : stop_count_ c2 = stop_count_ c1;
  sbs_last : last_publish_time_ c2 = last_publish_time_ c1;
  sbs_velocity : search_velocity_ c2 = search_velocity_ c1;
  sbs_joint : joint_ c2 = joint_ c1;
  sbs_others : other_joints_ c2 = other_joints_ c1;
  sbs_pub : pub_calibrated_ c2 = pub_calibrated_ c1;
  sbs_command : command_ (vc_ c2) = command_ (vc_ c1);
  sbs_actuator : actuator_ w2 = actuator_ w1;
  sbs_length : length (joint_states_ w2) = length (joint_states_ w1);
  sbs_flags : forall i, calibrated_ <$> joint_states_ w2 !! i
                        = calibrated_ <$> joint_states_ w1 !! i
}.

(** Calibration is under way: the controller is past BEGINNING and short
    of CALIBRATED, the primary joint is flagged as not calibrated, the
    actuator's zero offset is zero and the servo is commanded at the
    search velocity. *)
Definition calibrating (c : Controller) (w : World) : Prop :=
  (state_ c = STARTING \/ state_ c = CLOSING)
  /\ calibrated_ <$> joint_states_ w !! joint_ c = Some false
  /\ zero_offset_ (actuator_ w) = 0
  /\ command_ (vc_ c) = search_velocity_ c.

(** What the counters hold in each state once BEGINNING has run. *)
Definition counters_ok (c : Controller) : Prop :=
  match state_ c with
  | INITIALIZED | BEGINNING => True
  | STARTING => (0 <= count_ c <= 500)%Z /\ stop_count_ c = 0%Z
  | CLOSING => count_ c = 0%Z /\ (0 <= stop_count_ c <= 100)%Z
  | CALIBRATED => count_ c = 0%Z /\ stop_count_ c = 101%Z
  end.

(** The joint handles point into the robot's joint states. *)
Definition handles_valid (c : Controller) (w : World) : Prop :=
  Forall (fun j => (j < length (joint_states_ w))%nat)
         (joint_ c :: other_joints_ c).

(** The states a run goes through: the state before the first tick and
    the state after each tick. *)
Fixpoint visited (ins : list Input) (s : System) : list State :=
  state_ (fst s) ::
  match ins with
  | [] => []
  | i :: ins' => visited ins' (fst (tick i s))
  end.

(** How many of the samples just before tick [n] were stalled in a row. *)
Fixpoint streak (ins : nat -> Input) (n : nat) : nat :=
  match n with
  | O => O
  | S n' => if stalled (ins n') then S (streak ins n') else O
  end.

End Servo.

(** The order of the calibration states. *)
Definition calibration_order : list State :=
  [INITIALIZED; BEGINNING; STARTING; CLOSING; CALIBRATED].

Definition rank (s : State) : nat :=
  match s with
  | INITIALIZED => 0
  | BEGINNING => 1
  | STARTING => 2
  | CLOSING => 3
  | CALIBRATED => 4
  end.

Definition successor (s : State) : State :=
  match s with
  | INITIALIZED => BEGINNING
  | BEGINNING => STARTING
  | STARTING => CLOSING
  | CLOSING => CALIBRATED
  | CALIBRATED => CALIBRATED
  end.

(** One tick's change of state: none, or to the next state. *)
Definition steps_to (a b : State) : Prop :=
  b = a \/ (a <> CALIBRATED /\ b = successor a).

(** A sequence of states with every immediate repetition dropped. *)
Fixpoint compress (l : list State) : list State :=
  match l with
  | [] => []
  | a :: l' =>
      match l' with
      | [] => [a]
      | b :: _ => if decide (a = b) then compress l' else a :: compress l'
      end
  end.

End GripperCalibrationController.

(** * The Cartesian wrench controller *)

Module CartesianWrenchController.

(** [KDL::Vector] with its [operator()(int)]. *)
Record Vector : Type := mkVector { x : double; y : double; z : double }.

Definition vector_at (v : Vector) (i : nat) : double :=
  match i with
  | O => x v
  | S O => y v
  | _ => z v
  end.

(** [KDL::Wrench]: components 0..2 are the force, 3..5 the torque. *)
Record Wrench : Type := mkWrench { force : Vector; torque : Vector }.

Definition wrench_at (w : Wrench) (j : nat) : double :=
  if (j <? 3)%nat then vector_at (force w) j else vector_at (torque w) (j - 3).

(** [Wrench::Zero()] *)
Definition Wrench_Zero : Wrench :=
  {| force := mkVector 0 0 0; torque := mkVector 0 0 0 |}.

(** [KDL::JntArray], indexed from 0.  Reading or writing an entry outside
    the array is undefined behaviour, rendered as [None]. *)
Abbreviation JntArray := (list double) (only parsing).

(** [a(i)] as a value *)
Definition jnt_read (a : JntArray) (i : nat) : option double := a !! i.

(** [a(i) = v] *)
Definition jnt_write (a : JntArray) (i : nat) (v : double)
  : option JntArray :=
  if decide (i < length a)%nat then Some (<[ i := v ]> a) else None.

(** [KDL::Jacobian]: a list of rows, one column per joint. *)
Abbreviation Jacobian := (list (list double)) (only parsing).

(** [J(j,i)] *)
Definition jac_read (J : Jacobian) (j i : nat) : option double :=
  row ← J !! j; row !! i.

(** [constraint_] *)
Record Constraint : Type := mkConstraint {
  joint : Z;
  soft_limit : double;
  hard_limit : double;
  stiffness : double
}.

(** A joint of the chain as [pr2_mechanism_model::Chain] exposes it. *)
Record ChainJoint : Type := mkChainJoint {
  position_ : double;
  calibrated_ : bool
}.

(** [chain_]: the joints between root and tip, read afresh every tick. *)
Abbreviation Chain := (list ChainJoint) (only parsing).

(** [Chain::allCalibrated()] *)
Definition allCalibrated (ch : Chain) : bool := forallb calibrated_ ch.

(** [Chain::getPositions(a)]: [a(i) = joints_[i]->position_] for every
    joint of the chain; [a] must have one row per joint. *)
Definition getPositions (ch : Chain) (a : JntArray) : option JntArray :=
  if decide (length a = length ch) then Some (position_ <$> ch) else None.

Record Controller : Type := mkController {
  constraint_ : Constraint;
  wrench_desi_ : Wrench;
  (** [kdl_chain_.getNrOfJoints()] *)
  nr_of_joints : nat;
  jnt_pos_ : JntArray;
  jnt_eff_ : JntArray;
  jacobian_ : Jacobian
}.

(** [starting()] *)
Definition starting (c : Controller) : Controller :=
  {| constraint_ := constraint_ c; wrench_desi_ := Wrench_Zero;
     nr_of_joints := nr_of_joints c; jnt_pos_ := jnt_pos_ c;
     jnt_eff_ := jnt_eff_ c; jacobian_ := jacobian_ c |}.

(** [command(wrench_msg)] *)
Definition command (msg : Wrench) (c : Controller) : Controller :=
  {| constraint_ := constraint_ c;
     wrench_desi_ :=
       {| force := mkVector (x (force msg)) (y (force msg)) (z (force msg));
          torque := mkVector (x (torque msg)) (y (torque msg)) (z (torque msg)) |};
     nr_of_joints := nr_of_joints c; jnt_pos_ := jnt_pos_ c;
     jnt_eff_ := jnt_eff_ c; jacobian_ := jacobian_ c |}.

(** The body of the outer loop for joint [i]:
    [jnt_eff_(i) = 0; for (j < 6) jnt_eff_(i) += jacobian_(j,i) * wrench_desi_(j);] *)
Definition accumulate (J : Jacobian) (W : Wrench) (i : nat) (eff : JntArray)
  : option JntArray :=
  foldl (fun oe j =>
           e ← oe; a ← jnt_read e i; g ← jac_read J j i;
           jnt_write e i (a + g * wrench_at W j))
        (jnt_write eff i 0) (seq 0 6).

(** "convert the wrench into joint efforts" *)
Definition wrench_to_efforts (n : nat) (J : Jacobian) (W : Wrench)
    (eff : JntArray) : option JntArray :=
  foldl (fun oe i => e ← oe; accumulate J W i e) (Some eff) (seq 0 n).

(** [J(j,i)] where the Jacobian has such an entry. *)
Definition jac_at (J : Jacobian) (j i : nat) : double :=
  default 0 (jac_read J j i).

(** The value the inner loop leaves in [jnt_eff_(i)], in the order the
    code adds it up. *)
Definition accumulated (J : Jacobian) (W : Wrench) (i : nat) : double :=
  foldl (fun acc j => acc + jac_at J j i * wrench_at W j) 0 (seq 0 6).

(** The array the double loop leaves: the accumulated values in the
    first [n] entries. *)
Definition projected (n : nat) (J : Jacobian) (W : Wrench) (eff : JntArray)
  : JntArray :=
  foldl (fun e i => <[ i := accumulated J W i ]> e) eff (seq 0 n).

(** A Jacobian of six rows and [n] columns. *)
Definition well_shaped (J : Jacobian) (n : nat) : Prop :=
  length J = 6%nat /\ Forall (fun row => length row = n) J.

Section Kinematics.

(** [KDL::sign] and the Jacobian solver [jnt_to_jac_solver_->JntToJac]
    belong to the KDL library; they are left open. *)
Variable sign : double -> double.
Variable JntToJac : JntArray -> Jacobian.

(** "apply joint constraint" *)
Definition apply_constraint (k : Constraint) (n : nat) (pos eff : JntArray)
  : option JntArray :=
  if (0 <=? joint k)%Z && (joint k <? to_int (Z.of_nat n))%Z
  then
    let i := Z.to_nat (joint k) in
    let sgn := sign (hard_limit k - soft_limit k) in
    p ← jnt_read pos i;
    if ltb (sgn * (hard_limit k - p)) 0
    then jnt_write eff i (stiffness k * (soft_limit k - p))
    else
      if ltb (sgn * (soft_limit k - p)) 0
      then e ← jnt_read eff i;
           jnt_write eff i (e + stiffness k * (soft_limit k - p))
      else Some eff
  else Some eff.

(** [CartesianWrenchController::update()]: the controller afterwards and
    the effort vector handed to [chain_.setEfforts], if any; [None] when
    the tick runs into undefined behaviour. *)
Definition update (c : Controller) (ch : Chain)
  : option (Controller * option JntArray) :=
  if negb (allCalibrated ch)
  then Some (c, None)
  else
    pos ← getPositions ch (jnt_pos_ c);
    let jac := JntToJac pos in
    eff ← wrench_to_efforts (nr_of_joints c) jac (wrench_desi_ c)
            (jnt_eff_ c);
    eff ← apply_constraint (constraint_ c) (nr_of_joints c) pos eff;
    Some ({| constraint_ := constraint_ c; wrench_desi_ := wrench_desi_ c;
             nr_of_joints := nr_of_joints c; jnt_pos_ := pos;
             jnt_eff_ := eff; jacobian_ := jac |},
          Some eff).

(** What [init] establishes: the chain has [nr_of_joints] joints, the
    arrays have one entry per joint, and the solver answers a Jacobian
    with one column per joint. *)
Definition sized (c : Controller) (ch : Chain) : Prop :=
  length ch = nr_of_joints c
  /\ length (jnt_pos_ c) = nr_of_joints c
  /\ length (jnt_eff_ c) = nr_of_joints c
  /\ well_shaped (JntToJac (position_ <$> ch)) (nr_of_joints c).

(** The efforts of a tick on chain [ch] before the joint constraint is
    applied. *)
Definition task_efforts (c : Controller) (ch : Chain) : JntArray :=
  projected (nr_of_joints c) (JntToJac (position_ <$> ch))
    (wrench_desi_ c) (jnt_eff_ c).

End Kinematics.

(** The sum the specification writes, [Σ_j J[j][i] * W[j]] over the six
    wrench components. *)
Definition transpose_projection (J : Jacobian) (W : Wrench) (i : nat)
  : double :=
  jac_at J 0 i * wrench_at W 0 + jac_at J 1 i * wrench_at W 1
  + jac_at J 2 i * wrench_at W 2 + jac_at J 3 i * wrench_at W 3
  + jac_at J 4 i * wrench_at W 4 + jac_at J 5 i * wrench_at W 5.

(** The position has crossed [limit] in the sense of [direction]. *)
Definition crossed (direction limit position : double) : Prop :=
  0 < direction * (position - limit).

(** The identity Jacobian of a six-joint chain. *)
Definition identity_jacobian : Jacobian :=
  [ [1; 0; 0; 0; 0; 0]; [0; 1; 0; 0; 0; 0]; [0; 0; 1; 0; 0; 0];
    [0; 0; 0; 1; 0; 0]; [0; 0; 0; 0; 1; 0]; [0; 0; 0; 0; 0; 1] ].

(** [KDL::sign], as the KDL library defines it: [(arg < 0) ? -1 : 1]. *)
Definition KDL_sign (arg : double) : double := if ltb arg 0 then -1 else 1.

End CartesianWrenchController.

(** * The joint constraint and its arithmetic *)

(** The lines under "apply joint constraint" are the one place of the
    wrench controller where the specification names a number that the
    code has to compute.  The step is written here over the arithmetic
    it uses, given as a parameter: over the rationals it is
    [apply_constraint], over binary64 it is what the processor
    evaluates. *)

Module ConstraintArithmetic.

Import (notations) PrimFloat.

(** The operations of [double] that the step and [KDL::sign] use. *)
Record Arithmetic (A : Type) : Type := mkArithmetic {
  num_zero : A;
  num_one : A;
  num_minus_one : A;
  num_add : A -> A -> A;
  num_sub : A -> A -> A;
  num_mul : A -> A -> A;
  num_lt : A -> A -> bool
}.

Arguments num_zero {A}.
Arguments num_one {A}.
Arguments num_minus_one {A}.
Arguments num_add {A}.
Arguments num_sub {A}.
Arguments num_mul {A}.
Arguments num_lt {A}.

(** Exact arithmetic. *)
Definition rational : Arithmetic Q :=
  {| num_zero := 0; num_one := 1; num_minus_one := -1;
     num_add := Qplus; num_sub := Qminus; num_mul := Qmult; num_lt := ltb |}.

(** IEEE 754 binary64, rounding to nearest. *)
Definition binary64 : Arithmetic PrimFloat.float :=
  {| num_zero := 0%float; num_one := 1%float; num_minus_one := (-1)%float;
     num_add := PrimFloat.add; num_sub := PrimFloat.sub;
     num_mul := PrimFloat.mul; num_lt := PrimFloat.ltb |}.

(** [KDL::sign]: [(arg < 0) ? -1 : 1]. *)
Definition sign_in {A : Type} (ar : Arithmetic A) (arg : A) : A :=
  if num_lt ar arg (num_zero ar) then num_minus_one ar else num_one ar.

(** "apply joint constraint", for the constraint
    [{joint; soft_limit; hard_limit; stiffness}] on [n] joints. *)
Definition apply_constraint_in {A : Type} (ar : Arithmetic A) (sign : A -> A)
    (joint : Z) (soft_limit hard_limit stiffness : A) (n : nat)
    (pos eff : list A) : option (list A) :=
  if (0 <=? joint)%Z && (joint <? to_int (Z.of_nat n))%Z
  then
    let i := Z.to_nat joint in
    let sgn := sign (num_sub ar hard_limit soft_limit) in
    p ← pos !! i;
    if num_lt ar (num_mul ar sgn (num_sub ar hard_limit p)) (num_zero ar)
    then
      if decide (i < length eff)%nat
      then Some (<[ i := num_mul ar stiffness (num_sub ar soft_limit p) ]> eff)
      else None
    else
      if num_lt ar (num_mul ar sgn (num_sub ar soft_limit p)) (num_zero ar)
      then e ← eff !! i;
           let spring := num_mul ar stiffness (num_sub ar soft_limit p) in
           if decide (i < length eff)%nat
           then Some (<[ i := num_add ar e spring ]> eff)
           else None
      else Some eff
  else Some eff.

(** The rational number a binary64 value stands for, when it is finite. *)
Definition exact_value (f : PrimFloat.float) : option Q :=
  match FloatOps.Prim2SF f with
  | SpecFloat.S754_zero _ => Some 0
  | SpecFloat.S754_finite s m e =>
      let v := inject_Z (Z.pos m) * Qpower 2 e in
      Some (if s then - v else v)
  | _ => None
  end.

(** The binary64 value nearest to 1.6, which is what the literal [1.6]
    denotes in the program, and the value next below -6. *)
Definition one_point_six : PrimFloat.float := 0x1.999999999999ap+0%float.

Definition below_minus_six : PrimFloat.float := (-0x1.8000000000001p+2)%float.

(** Six joint positions with the third joint at 1.6, and six efforts
    with 5 for the third joint. *)
Definition positions64 : list PrimFloat.float :=
  [0%float; 0%float; one_point_six; 0%float; 0%float; 0%float].

Definition efforts64 : list PrimFloat.float :=
  [0%float; 0%float; 5%float; 0%float; 0%float; 0%float].

(** The smallest positive binary64 value, [2^-1074]. *)
Definition smallest_positive : PrimFloat.float := 0x1p-1074%float.

End ConstraintArithmetic.

(** * Scenarios *)

(** Concrete robots and controllers on which the properties below are
    exercised. *)

Module Scenarios.

Import GripperCalibrationController.

(** A proportional servo without memory. *)
Definition proportional (m : unit) (command : double) (j : JointState)
    (now : Time) : unit * double :=
  (tt, command - velocity_ j).

(** A gripper with its primary joint at index 0 and two dependent
    joints; all three were calibrated by an earlier run. *)
Definition gripper : World :=
  {| joint_states_ := [ mkJointState 0 true 0; mkJointState 0 true 0;
                        mkJointState 0 true 0 ];
     actuator_ := mkActuatorState 0.25 0.125;
     getTime := 0%Z;
     trylock := true |}.

(** A controller for it as [init] leaves it, before its first tick. *)
Definition fresh : @Controller unit :=
  construct 7 9 0.5 0%nat [1%nat; 2%nat] (mkVC 0 tt).

(** A sample taken while the gripper moves, and one taken at rest. *)
Definition moving : Input := mkInput 1 0.3 0%Z true.

Definition still : Input := mkInput 0 0.42 0%Z true.

(** A sample at rest taken at time [t] (in nanoseconds), with the
    publisher's lock free or not. *)
Definition at_time (t : Z) (free : bool) : Input := mkInput 0 0.42 t free.

(** The system on entry to CLOSING, which [fresh] on [gripper] reaches
    after one tick to BEGINNING, one to STARTING and 501 ticks of
    warm-up. *)
Definition closing_controller : @Controller unit :=
  {| state_ := CLOSING; count_ := 0; stop_count_ := 0;
     last_publish_time_ := 0; search_velocity_ := 0.5;
     joint_ := 0; other_joints_ := [1%nat; 2%nat];
     vc_ := mkVC 0.5 tt; pub_calibrated_ := true |}.

Definition closing_world : World :=
  {| joint_states_ := [ mkJointState 1 false (-0.5); mkJointState 0 true 0;
                        mkJointState 0 true 0 ];
     actuator_ := mkActuatorState 0.3 0;
     getTime := 0%Z;
     trylock := true |}.

Definition closing_entry : System := (closing_controller, closing_world).

(** The system after calibration, 101 ticks at rest later. *)
Definition calibrated_system : System :=
  ({| state_ := CALIBRATED; count_ := 0; stop_count_ := 101;
      last_publish_time_ := 0; search_velocity_ := 0.5;
      joint_ := 0; other_joints_ := [1%nat; 2%nat];
      vc_ := mkVC 0 tt; pub_calibrated_ := true |},
   {| joint_states_ := [ mkJointState 0 true 0.5; mkJointState 0 true 0;
                         mkJointState 0 true 0 ];
      actuator_ := mkActuatorState 0.42 0.42;
      getTime := 0%Z;
      trylock := true |}).

(** Three ticks after calibration, at 1.0 s, 1.2 s and 1.6 s. *)
Definition three_ticks : list Input :=
  [at_time 1000000000 true; at_time 1200000000 true;
   at_time 1600000000 true].

(** Samples that alternate between moving and at rest. *)
Definition alternating (n : nat) : Input :=
  if Nat.even n then moving else still.

Import CartesianWrenchController.

(** A solver that answers the identity Jacobian at every configuration. *)
Definition identity_solver (q : JntArray) : Jacobian := identity_jacobian.

(** Six calibrated joints, the third one at position 1.6. *)
Definition six_joints : Chain :=
  [ mkChainJoint 0 true; mkChainJoint 0 true; mkChainJoint 1.6 true;
    mkChainJoint 0 true; mkChainJoint 0 true; mkChainJoint 0 true ].

(** The same chain with the third joint at 1.2, between the limits. *)
Definition six_joints_between : Chain :=
  [ mkChainJoint 0 true; mkChainJoint 0 true; mkChainJoint 1.2 true;
    mkChainJoint 0 true; mkChainJoint 0 true; mkChainJoint 0 true ].

(** The same chain with its last joint not yet calibrated. *)
Definition six_joints_uncalibrated : Chain :=
  [ mkChainJoint 0 true; mkChainJoint 0 true; mkChainJoint 1.6 true;
    mkChainJoint 0 true; mkChainJoint 0 true; mkChainJoint 0 false ].

(** A controller constraining joint [k] between 1.0 and 1.5 with
    stiffness 10, asked for the wrench [W]. *)
Definition constrained (k : Z) (W : Wrench) : Controller :=
  {| constraint_ := mkConstraint k 1.0 1.5 10;
     wrench_desi_ := W;
     nr_of_joints := 6;
     jnt_pos_ := [0; 0; 0; 0; 0; 0];
     jnt_eff_ := [0; 0; 0; 0; 0; 0];
     jacobian_ := identity_jacobian |}.

Definition unit_force_x : Wrench := mkWrench (mkVector 1 0 0) (mkVector 0 0 0).

Definition push_z : Wrench := mkWrench (mkVector 0 0 5) (mkVector 0 0 0).

End Scenarios.

(** * Initialisation *)

(** ** The parameter server *)

Module Parameters.

Local Unset Elimination Schemes.

(** [XmlRpc::XmlRpcValue], by its type tag. *)
Inductive XmlRpcValue : Type :=
| TypeInvalid
| TypeBoolean (b : bool)
| TypeInt (i : Z)
| TypeDouble (d : double)
| TypeString (s : string)
| TypeArray (l : list XmlRpcValue).

Local Set Elimination Schemes.

(** The conversion [(std::string)v] of the XmlRpc library: the string of
    a string value, the empty string that a value without type turns
    into, and an exception, rendered as [None], for every other type. *)
Definition as_string (v : XmlRpcValue) : option string :=
  match v with
  | TypeString s => Some s
  | TypeInvalid => Some EmptyString
  | _ => None
  end.

(** What a [ros::NodeHandle] answers to [getParam], by the type of the
    variable to fill; [None] is the answer [false]. *)
Record NodeHandle : Type := mkNodeHandle {
  getParam_string : string -> option string;
  getParam_double : string -> option double;
  getParam_int : string -> option Z;
  getParam_xml : string -> option XmlRpcValue
}.

(** [NodeHandle::param(key, val, default_val)] *)
Definition param {A : Type} (getParam : string -> option A) (key : string)
    (default_val : A) : A :=
  default default_val (getParam key).

End Parameters.

(** ** [GripperCalibrationController::init] *)

Module GripperCalibrationInit.

Import Parameters GripperCalibrationController.

Section Init.

Context {ServoMem : Type}.

(** The node handle [n], the robot's lookup of joint states and
    actuators by name ([None] is the null pointer), and the outcome of
    [vc_.init(robot, node_)] ([None] when it answers [false]). *)
Variable node_ : NodeHandle.
Variable getJointState : string -> option nat.
Variable getActuator : string -> option nat.
Variable vc_init : option (@JointVelocityController ServoMem).

(** How [init] ends: with [true] and the controller it has set up, with
    [false], or with the exception of a failed conversion. *)
Inductive InitResult : Type :=
| Ready (c : @Controller ServoMem)
| Refused
| Thrown.

(** The loop over [other_joint_names]: every name the robot knows is
    pushed back on [other_joints_], the others are reported and
    skipped. *)
Definition push_other_joints (names : list XmlRpcValue) (others : list nat)
  : option (list nat) :=
  foldl (fun acc v =>
           others ← acc;
           name ← as_string v;
           Some (match getJointState name with
                 | Some j => others ++ [j]
                 | None => others
                 end))
        (Some others) names.

(** [init(robot, n)] on a constructed controller [c].  The World of the
    ticks holds the state of the actuator found here. *)
Definition init (c : @Controller ServoMem) : InitResult :=
  match getParam_double node_ "velocity" with
  | None => Refused
  | Some velocity =>
  match getParam_string node_ "joint" with
  | None => Refused
  | Some joint_name =>
  match getJointState joint_name with
  | None => Refused
  | Some joint =>
  match getParam_string node_ "actuator" with
  | None => Refused
  | Some actuator_name =>
  match getActuator actuator_name with
  | None => Refused
  | Some actuator =>
  match
    match getParam_xml node_ "other_joints" with
    | Some (TypeArray names) => push_other_joints names (other_joints_ c)
    | Some _ => Some (other_joints_ c)
    | None => Some (other_joints_ c)
    end
  with
  | None => Thrown
  | Some others =>
  match vc_init with
  | None => Refused
  | Some vc =>
      Ready {| state_ := state_ c; count_ := count_ c;
               stop_count_ := stop_count_ c;
               last_publish_time_ := last_publish_time_ c;
               search_velocity_ := velocity; joint_ := joint;
               other_joints_ := others; vc_ := vc;
               pub_calibrated_ := true |}
  end end end end end end end.

(** The names in the [other_joints] parameter that [init] resolves, in
    their order. *)
Definition resolved_other_joints : list nat :=
  match getParam_xml node_ "other_joints" with
  | Some (TypeArray names) =>
      omap (fun v => as_string v ≫= getJointState) names
  | _ => []
  end.

(** The parameters [velocity], [joint] and [actuator] are there, and the
    robot knows the joint and the actuator they name. *)
Definition required_resolved : Prop :=
  is_Some (getParam_double node_ "velocity")
  /\ is_Some (getParam_string node_ "joint" ≫= getJointState)
  /\ is_Some (getParam_string node_ "actuator" ≫= getActuator).

(** No element of the [other_joints] array fails to convert. *)
Definition other_joints_convert : Prop :=
  match getParam_xml node_ "other_joints" with
  | Some (TypeArray names) => Forall (fun v => is_Some (as_string v)) names
  | _ => True
  end.

End Init.

End GripperCalibrationInit.

(** ** [CartesianWrenchController::init] and [initXml] *)

Module CartesianWrenchInit.

Import Parameters CartesianWrenchController.

Section Init.

(** The node handle of a namespace, the outcome of [chain_.init] followed
    by [chain_.toKDL] as the number of joints of the KDL chain ([None]
    when the chain cannot be built), and KDL's [resize] of joint arrays
    and Jacobians. *)
Variable NodeHandle_of : string -> NodeHandle.
Variable chain_init : string -> string -> option nat.
Variable resize : nat -> JntArray -> JntArray.
Variable resize_jacobian : nat -> Jacobian -> Jacobian.

(** [init(robot, n)]: the controller set up, or [None] for [false]. *)
Definition init (n : NodeHandle) (c : Controller) : option Controller :=
  match getParam_string n "root_name" with
  | None => None
  | Some root_name =>
  match getParam_string n "tip_name" with
  | None => None
  | Some tip_name =>
      let k := {| joint := param (getParam_int n) "constraint/joint" (-1)%Z;
                  soft_limit := param (getParam_double n)
                                  "constraint/soft_limit" 0;
                  hard_limit := param (getParam_double n)
                                  "constraint/hard_limit" 0;
                  stiffness := param (getParam_double n)
                                 "constraint/stiffness" 0 |} in
      match chain_init root_name tip_name with
      | None => None
      | Some nj =>
          Some {| constraint_ := k; wrench_desi_ := wrench_desi_ c;
                  nr_of_joints := nj;
                  jnt_pos_ := resize nj (jnt_pos_ c);
                  jnt_eff_ := resize nj (jnt_eff_ c);
                  jacobian_ := resize_jacobian nj (jacobian_ c) |}
      end
  end end.

(** The chain the parameters [root_name] and [tip_name] of a node handle
    describe, as its number of joints. *)
Definition chain_of (n : NodeHandle) : option nat :=
  root_name ← getParam_string n "root_name";
  tip_name ← getParam_string n "tip_name";
  chain_init root_name tip_name.

(** [initXml(robot_state, config)], from the [name] attribute of the
    configuration element, if it has one. *)
Definition initXml (name : option string) (c : Controller)
  : option Controller :=
  let controller_name := default EmptyString name in
  if String.eqb controller_name EmptyString
  then None
  else init (NodeHandle_of controller_name) c.

End Init.

End CartesianWrenchInit.

(** ** Scenarios of initialisation *)

Module InitScenarios.

Import Parameters GripperCalibrationController Scenarios.

(** The parameters of a gripper calibration controller: a velocity, the
    primary joint, the actuator, and three dependent joints of which the
    second is unknown to the robot. *)
Definition gripper_node : NodeHandle :=
  {| getParam_string := fun key =>
       if String.eqb key "joint" then Some "gripper_joint"%string
       else if String.eqb key "actuator" then Some "gripper_motor"%string
       else None;
     getParam_double := fun key =>
       if String.eqb key "velocity" then Some 0.5 else None;
     getParam_int := fun key => None;
     getParam_xml := fun key =>
       if String.eqb key "other_joints"
       then Some (TypeArray [TypeString "left_finger_joint";
                             TypeString "no_such_joint";
                             TypeString "right_finger_joint"])
       else None |}.

(** The joints and the actuator of the robot, by name. *)
Definition gripper_joints (name : string) : option nat :=
  if String.eqb name "gripper_joint" then Some 0%nat
  else if String.eqb name "left_finger_joint" then Some 1%nat
  else if String.eqb name "right_finger_joint" then Some 2%nat
  else None.

Definition gripper_actuators (name : string) : option nat :=
  if String.eqb name "gripper_motor" then Some 0%nat else None.

(** The controller handed to [init], with 7 and 9 in the uninitialised
    counters; the velocity 0, the handle 5 and the servo stand for the
    members that [init] overwrites. *)
Definition constructed : @Controller unit :=
  construct 7 9 0 5 [] (mkVC 0 tt).

(** The controller in STARTING, two ticks after [fresh] was set up. *)
Definition starting_controller : @Controller unit :=
  {| state_ := STARTING; count_ := 0; stop_count_ := 0;
     last_publish_time_ := 0; search_velocity_ := 0.5;
     joint_ := 0; other_joints_ := [1%nat; 2%nat];
     vc_ := mkVC 0.5 tt; pub_calibrated_ := true |}.

Import CartesianWrenchController.

(** The parameters of a wrench controller without joint constraint. *)
Definition wrench_node : NodeHandle :=
  {| getParam_string := fun key =>
       if String.eqb key "root_name" then Some "torso"%string
       else if String.eqb key "tip_name" then Some "wrist"%string
       else None;
     getParam_double := fun key => None;
     getParam_int := fun key => None;
     getParam_xml := fun key => None |}.

(** A robot with one chain, of six joints, from the torso to the wrist. *)
Definition six_joint_chain (root_name tip_name : string) : option nat :=
  if String.eqb root_name "torso" && String.eqb tip_name "wrist"
  then Some 6%nat else None.

(** A [resize] that keeps what fits and fills up with zeros. *)
Definition zero_fill (n : nat) (a : JntArray) : JntArray :=
  take n a ++ replicate (n - length a) 0.

Definition zero_fill_jacobian (n : nat) (J : Jacobian) : Jacobian := J.

(** The wrench controller as its constructor leaves it. *)
Definition unconfigured : Controller :=
  {| constraint_ := mkConstraint 0 0 0 0; wrench_desi_ := push_z;
     nr_of_joints := 0; jnt_pos_ := []; jnt_eff_ := [];
     jacobian_ := [] |}.

(** The controller [initXml] makes of it under the name [arm]. *)
Definition configured : Controller :=
  {| constraint_ := mkConstraint (-1) 0 0 0; wrench_desi_ := push_z;
     nr_of_joints := 6; jnt_pos_ := [0; 0; 0; 0; 0; 0];
     jnt_eff_ := [0; 0; 0; 0; 0; 0]; jacobian_ := [] |}.

(** A constrained controller whose arrays hold leftovers. *)
Definition leftovers (k : Z) (W : Wrench) : Controller :=
  {| constraint_ := mkConstraint k 1.0 1.5 10;
     wrench_desi_ := W;
     nr_of_joints := 6;
     jnt_pos_ := [9; 9; 9; 9; 9; 9];
     jnt_eff_ := [1; 2; 3; 4; 5; 6];
     jacobian_ := [] |}.

End InitScenarios.

(** * Properties *)

(** ** Scalars and machine integers *)

Lemma ltb_lt (x y : double) : ltb x y = true <-> x < y.
Proof.
  unfold ltb. rewrite negb_true_iff, <- not_true_iff_false, Qle_bool_iff.
  split; [apply Qnot_le_lt | apply Qlt_not_le].
Qed.

Lemma ltb_ge (x y : double) : ltb x y = false <-> y <= x.
Proof.
  unfold ltb. rewrite negb_false_iff, Qle_bool_iff. reflexivity.
Qed.

Lemma to_int_small (z : Z) :
  (- 2147483648 <= z <= INT_MAX)%Z -> to_int z = z.
Proof.
  unfold to_int, INT_MAX. intros H.
  rewrite Z.mod_small; lia.
Qed.


(** ** The joint constraint and its arithmetic *)

Module ConstraintArithmeticProofs.

Import (notations) PrimFloat.
Import CartesianWrenchController ConstraintArithmetic.

(** Over the rationals the step is [apply_constraint] and the sign is
    [KDL_sign]. *)
Lemma apply_constraint_rational (sign : double -> double) (k : Constraint)
    (n : nat) (pos eff : JntArray) :
  apply_constraint sign k n pos eff
  = apply_constraint_in rational sign (joint k) (soft_limit k) (hard_limit k)
      (stiffness k) n pos eff.
Proof. reflexivity. Qed.

Lemma KDL_sign_rational (arg : double) : KDL_sign arg = sign_in rational arg.
Proof. reflexivity. Qed.

(** [one_point_six] is within half a unit in the last place of 1.6, and
    [below_minus_six] is one unit in the last place below -6. *)
Lemma one_point_six_nearest :
  exists q, exact_value one_point_six = Some q
            /\ Qabs (q - 1.6) <= 1 # (2 ^ 53).
Proof.
  eexists. split; [vm_compute; reflexivity|]. vm_compute. discriminate.
Qed.

Lemma below_minus_six_value :
  exists q, exact_value below_minus_six = Some q /\ q == -6 - (1 # 2 ^ 50).
Proof.
  eexists. split; [vm_compute; reflexivity|]. vm_compute. reflexivity.
Qed.

(** The override term at soft limit 1.0, stiffness 10 and position 1.6,
    as binary64 evaluates it. *)
Lemma binary64_spring_value :
  PrimFloat.mul 10%float (PrimFloat.sub 1%float one_point_six)
  = below_minus_six.
Proof. reflexivity. Qed.

(** In binary64, with soft limit 1.0, hard limit 1.5 and stiffness 10, a
    joint at 1.6 is past the hard limit and its effort is overwritten
    with [below_minus_six], whatever it was. *)
Lemma binary64_past_hard_limit (n : nat) (j : Z)
    (pos eff : list PrimFloat.float) :
  (0 <= j < Z.of_nat n)%Z -> (Z.of_nat n <= INT_MAX)%Z ->
  pos !! Z.to_nat j = Some one_point_six ->
  (Z.to_nat j < length eff)%nat ->
  apply_constraint_in binary64 (sign_in binary64) j 1%float 1.5%float
    10%float n pos eff
  = Some (<[ Z.to_nat j := below_minus_six ]> eff).
Proof.
  intros Hj Hmax Hpos Hlen. unfold apply_constraint_in.
  rewrite to_int_small by (unfold INT_MAX in *; lia).
  replace ((0 <=? j)%Z && (j <? Z.of_nat n)%Z)
    with true by (symmetry; rewrite andb_true_iff, Z.leb_le, Z.ltb_lt; lia).
  cbv zeta. rewrite Hpos. simpl.
  change (PrimFloat.ltb
            (PrimFloat.mul
               (sign_in binary64 (PrimFloat.sub 1.5%float 1%float))
               (PrimFloat.sub 1.5%float one_point_six)) 0%float)
    with true.
  rewrite decide_True by exact Hlen.
  reflexivity.
Qed.

End ConstraintArithmeticProofs.

(** ** The Cartesian wrench controller *)

Module CartesianWrenchProofs.

Import (notations) PrimFloat.
Import CartesianWrenchController ConstraintArithmetic.
Import ConstraintArithmeticProofs.

(** *** Array accesses inside the bounds *)

Lemma jnt_write_defined (a : JntArray) (i : nat) (v : double) :
  (i < length a)%nat -> jnt_write a i v = Some (<[ i := v ]> a).
Proof. intros Hi. unfold jnt_write. rewrite decide_True by done. done. Qed.

Lemma jnt_read_inserted (a : JntArray) (i : nat) (v : double) :
  (i < length a)%nat -> jnt_read (<[ i := v ]> a) i = Some v.
Proof. intros Hi. apply list_lookup_insert_eq. done. Qed.

Lemma jac_read_defined (J : Jacobian) (n j i : nat) :
  well_shaped J n -> (j < 6)%nat -> (i < n)%nat ->
  jac_read J j i = Some (jac_at J j i).
Proof.
  intros [Hrows Hcols] Hj Hi. unfold jac_at, jac_read.
  destruct (lookup_lt_is_Some_2 J j) as [row Hrow]; [lia|].
  rewrite Hrow. simpl.
  rewrite Forall_lookup in Hcols. specialize (Hcols j row Hrow).
  destruct (lookup_lt_is_Some_2 row i) as [g ->]; [lia|]. done.
Qed.

(** *** The projection loops *)

(** The inner loop from a partial sum [acc] in entry [i]. *)
Lemma accumulate_from (J : Jacobian) (W : Wrench) (n i : nat)
    (js : list nat) (acc : double) (e : JntArray) :
  well_shaped J n -> (i < n)%nat -> (i < length e)%nat ->
  Forall (fun j => (j < 6)%nat) js ->
  foldl (fun oe j =>
           e ← oe; a ← jnt_read e i; g ← jac_read J j i;
           jnt_write e i (a + g * wrench_at W j))
        (Some (<[ i := acc ]> e)) js
  = Some (<[ i := foldl (fun acc j => acc + jac_at J j i * wrench_at W j)
                    acc js ]> e).
Proof.
  intros HJ Hin Hi. revert acc.
  induction js as [|j js IH]; intros acc Hjs; [done|].
  inversion Hjs as [|? ? Hj Hrest]; subst. simpl foldl.
  rewrite <- (IH (acc + jac_at J j i * wrench_at W j) Hrest). f_equal.
  simpl. rewrite jnt_read_inserted by done. simpl.
  rewrite (jac_read_defined J n j i) by done. simpl.
  rewrite jnt_write_defined by (rewrite length_insert; done).
  rewrite list_insert_insert_eq. done.
Qed.

Lemma accumulate_defined (J : Jacobian) (W : Wrench) (n i : nat)
    (e : JntArray) :
  well_shaped J n -> (i < n)%nat -> (i < length e)%nat ->
  accumulate J W i e = Some (<[ i := accumulated J W i ]> e).
Proof.
  intros HJ Hin Hi. unfold accumulate, accumulated.
  rewrite jnt_write_defined by done.
  apply (accumulate_from J W n); try done.
  apply Forall_forall. intros j Hj.
  apply list_elem_of_In, in_seq in Hj. lia.
Qed.

Lemma projected_length n J W (e : JntArray) :
  length (projected n J W e) = length e.
Proof.
  unfold projected. induction n as [|n IH]; [done|].
  rewrite seq_S, foldl_app. simpl. rewrite length_insert. exact IH.
Qed.

(** After the double loop every entry below [n] holds its accumulated
    sum, and the entries from [n] on are as before. *)
Lemma projected_lookup n J W (e : JntArray) i :
  (n <= length e)%nat ->
  projected n J W e !! i
  = if decide (i < n)%nat then Some (accumulated J W i) else e !! i.
Proof.
  unfold projected. revert i. induction n as [|n IH]; intros i Hn.
  - done.
  - rewrite seq_S, foldl_app. simpl.
    fold (projected n J W e).
    destruct (decide (i = n)) as [->|Hne].
    + rewrite decide_True by lia. apply list_lookup_insert_eq.
      rewrite projected_length. lia.
    + rewrite list_lookup_insert_ne by done. unfold projected.
      rewrite IH by lia.
      destruct (decide (i < n)%nat), (decide (i < S n)%nat); done || lia.
Qed.

Lemma wrench_to_efforts_defined (n m : nat) J W (e : JntArray) :
  well_shaped J m -> (n <= m)%nat -> (n <= length e)%nat ->
  wrench_to_efforts n J W e = Some (projected n J W e).
Proof.
  intros HJ. unfold wrench_to_efforts, projected.
  induction n as [|n IH]; intros Hm Hn; [done|].
  rewrite !seq_S, !foldl_app. simpl. rewrite IH by lia. simpl.
  apply (accumulate_defined J W m); [done|lia|].
  fold (projected n J W e). rewrite projected_length. lia.
Qed.

(** The sum as the code accumulates it is the sum the specification
    writes. *)
Lemma accumulated_transpose J W i :
  accumulated J W i == transpose_projection J W i.
Proof.
  unfold accumulated, transpose_projection. simpl. ring.
Qed.

Lemma not_allCalibrated (ch : Chain) :
  (exists j, j ∈ ch /\ calibrated_ j = false) -> allCalibrated ch = false.
Proof.
  intros (j & Hj & Hc). unfold allCalibrated.
  apply not_true_iff_false. intros Hall.
  rewrite forallb_forall in Hall.
  apply list_elem_of_In in Hj. rewrite (Hall j Hj) in Hc. discriminate.
Qed.

Section Kinematics.

Variable sign : double -> double.
Variable JntToJac : JntArray -> Jacobian.

(** What is assumed of [KDL::sign]: it is 1 on positive and -1 on negative
    arguments. *)
Hypothesis sign_positive : forall a, 0 < a -> sign a == 1.
Hypothesis sign_negative : forall a, a < 0 -> sign a == -1.

Local Abbreviation update := (update sign JntToJac).
Local Abbreviation sized := (sized JntToJac).
Local Abbreviation task_efforts := (task_efforts JntToJac).
Local Abbreviation apply_constraint := (apply_constraint sign).

Lemma task_efforts_length (c : Controller) (ch : Chain) :
  length (task_efforts c ch) = length (jnt_eff_ c).
Proof. apply projected_length. Qed.

Lemma task_efforts_lookup (c : Controller) (ch : Chain) (i : nat) :
  sized c ch -> (i < nr_of_joints c)%nat ->
  task_efforts c ch !! i
  = Some (accumulated (JntToJac (position_ <$> ch)) (wrench_desi_ c) i).
Proof.
  intros (_ & _ & Hlen & _) Hi. unfold CartesianWrenchController.task_efforts.
  rewrite projected_lookup by lia.
  rewrite decide_True by done. reflexivity.
Qed.

(** On a calibrated chain a tick computes the task efforts, applies the
    constraint to them and sends the outcome. *)
Lemma update_calibrated (c : Controller) (ch : Chain) :
  sized c ch -> allCalibrated ch = true ->
  update c ch
  = eff ← apply_constraint (constraint_ c) (nr_of_joints c)
            (position_ <$> ch) (task_efforts c ch);
    Some ({| constraint_ := constraint_ c; wrench_desi_ := wrench_desi_ c;
             nr_of_joints := nr_of_joints c; jnt_pos_ := position_ <$> ch;
             jnt_eff_ := eff;
             jacobian_ := JntToJac (position_ <$> ch) |},
          Some eff).
Proof.
  intros (Hch & Hpos & Heff & HJ) Hcal.
  unfold CartesianWrenchController.update. rewrite Hcal. simpl.
  unfold getPositions. rewrite decide_True by congruence. simpl.
  rewrite (wrench_to_efforts_defined _ (nr_of_joints c)) by (done || lia).
  reflexivity.
Qed.

(** The guard of the constraint block holds only for indices of the
    chain. *)
Lemma constraint_guard (k : Constraint) (n : nat) :
  (0 <=? joint k)%Z && (joint k <? to_int (Z.of_nat n))%Z = true ->
  (0 <= joint k < Z.of_nat n)%Z.
Proof.
  rewrite andb_true_iff, Z.leb_le, Z.ltb_lt. intros [H0 Hlt].
  split; [done|]. unfold to_int in Hlt.
  pose proof (Z.mod_pos_bound (Z.of_nat n + 2147483648) 4294967296 eq_refl).
  pose proof (Z.mod_le (Z.of_nat n + 2147483648) 4294967296). lia.
Qed.

(** Outside the guard the constraint step touches no array at all. *)
Lemma apply_constraint_unguarded (k : Constraint) (n : nat)
    (pos eff : JntArray) :
  (joint k < 0 \/ Z.of_nat n <= joint k)%Z ->
  apply_constraint k n pos eff = Some eff.
Proof.
  intros Hout. unfold CartesianWrenchController.apply_constraint.
  destruct ((0 <=? joint k)%Z && (joint k <? to_int (Z.of_nat n))%Z) eqn:Hg;
    [|reflexivity].
  apply constraint_guard in Hg. lia.
Qed.

(** With arrays of one entry per joint the constraint step stays inside
    them, and it changes at most the entry of the constrained joint. *)
Lemma apply_constraint_defined (k : Constraint) (n : nat)
    (pos eff : JntArray) :
  length pos = n -> length eff = n ->
  exists eff', apply_constraint k n pos eff = Some eff'
    /\ length eff' = n
    /\ forall i, Z.of_nat i <> joint k -> eff' !! i = eff !! i.
Proof.
  intros Hpos Heff. unfold CartesianWrenchController.apply_constraint.
  destruct ((0 <=? joint k)%Z && (joint k <? to_int (Z.of_nat n))%Z) eqn:Hg;
    [|exists eff; done].
  apply constraint_guard in Hg.
  assert (Hk : (Z.to_nat (joint k) < n)%nat) by lia.
  destruct (lookup_lt_is_Some_2 pos (Z.to_nat (joint k))) as [p Hp]; [lia|].
  destruct (lookup_lt_is_Some_2 eff (Z.to_nat (joint k))) as [e He]; [lia|].
  unfold jnt_read. rewrite Hp. simpl.
  destruct (ltb _ _); [|destruct (ltb _ _)]; rewrite ?He; simpl;
    rewrite ?jnt_write_defined by lia;
    eexists; (split; [reflexivity|]); rewrite ?length_insert;
    (split; [done|]); intros i Hne;
    rewrite ?list_lookup_insert_ne by lia; reflexivity.
Qed.

(** C6. When some joint of the chain is uncalibrated, a tick hands no
    effort vector to the chain and returns the controller exactly as it
    was, whatever the desired wrench is. *)
Theorem uncalibrated_chain_is_skipped (c : Controller) (ch : Chain) :
  (exists j, j ∈ ch /\ calibrated_ j = false) ->
  update c ch = Some (c, None).
Proof.
  intros Hun. apply not_allCalibrated in Hun.
  unfold CartesianWrenchController.update. rewrite Hun. reflexivity.
Qed.

(** C3. On a calibrated chain the efforts computed before the constraint
    is applied are the Jacobian-transpose projection of the desired
    wrench: entry [i] is the sum over the six wrench components of
    [J(j,i) * W(j)], for every joint [i] of the chain, and these efforts
    are what the constraint step and then the chain receive.  With the
    identity Jacobian on six joints and the wrench (1,0,0,0,0,0) the
    efforts are 1 at joint 0 and 0 at the others. *)
Theorem efforts_are_transpose_projection (c : Controller) (ch : Chain) :
  sized c ch -> allCalibrated ch = true ->
  wrench_to_efforts (nr_of_joints c) (JntToJac (position_ <$> ch))
    (wrench_desi_ c) (jnt_eff_ c)
  = Some (task_efforts c ch)
  /\ (exists c' eff,
       update c ch = Some (c', Some eff)
       /\ apply_constraint (constraint_ c) (nr_of_joints c)
            (position_ <$> ch) (task_efforts c ch) = Some eff)
  /\ (forall i, (i < nr_of_joints c)%nat ->
      exists e, task_efforts c ch !! i = Some e
        /\ e == transpose_projection (JntToJac (position_ <$> ch))
                 (wrench_desi_ c) i)
  /\ (nr_of_joints c = 6%nat ->
      JntToJac (position_ <$> ch) = identity_jacobian ->
      wrench_desi_ c = mkWrench (mkVector 1 0 0) (mkVector 0 0 0) ->
      Forall2 Qeq (task_efforts c ch) [1; 0; 0; 0; 0; 0]).
Proof.
  intros Hsz Hcal. pose proof Hsz as (Hch & Hpos & Heff & HJ).
  split; [apply (wrench_to_efforts_defined _ (nr_of_joints c)); done || lia|].
  split.
  { destruct (apply_constraint_defined (constraint_ c) (nr_of_joints c)
                (position_ <$> ch) (task_efforts c ch))
      as (eff & Hc & _).
    - rewrite length_fmap. done.
    - rewrite task_efforts_length. done.
    - eexists _, eff. rewrite update_calibrated by done.
      rewrite Hc. done. }
  split.
  - intros i Hi. eexists. split; [apply task_efforts_lookup; done|].
    apply accumulated_transpose.
  - intros Hn HJid HW.
    assert (Hlen : length (task_efforts c ch) = 6%nat).
    { rewrite task_efforts_length. congruence. }
    assert (Hlk : forall i, (i < 6)%nat ->
              task_efforts c ch !! i
              = Some (accumulated identity_jacobian (wrench_desi_ c) i)).
    { intros i Hi. rewrite task_efforts_lookup by (rewrite ?Hn; done).
      rewrite HJid. reflexivity. }
    rewrite HW in Hlk.
    destruct (task_efforts c ch) as [|e0 [|e1 [|e2 [|e3 [|e4 [|e5 [|? ?]]]]]]];
      try discriminate Hlen.
    pose proof (Hlk 0%nat ltac:(lia)) as H0.
    pose proof (Hlk 1%nat ltac:(lia)) as H1.
    pose proof (Hlk 2%nat ltac:(lia)) as H2.
    pose proof (Hlk 3%nat ltac:(lia)) as H3.
    pose proof (Hlk 4%nat ltac:(lia)) as H4.
    pose proof (Hlk 5%nat ltac:(lia)) as H5.
    simpl in H0, H1, H2, H3, H4, H5.
    injection H0 as ->. injection H1 as ->. injection H2 as ->.
    injection H3 as ->. injection H4 as ->. injection H5 as ->.
    repeat constructor; vm_compute; reflexivity.
Qed.

(** Past the hard limit is past the soft limit, in the direction that
    leads from the soft limit to the hard one. *)
Lemma crossed_hard_soft (soft hard p : double) :
  crossed (sign (hard - soft)) hard p -> crossed (sign (hard - soft)) soft p.
Proof.
  unfold crossed. intros Hh.
  destruct (Q_dec (hard - soft) 0) as [[Hlt|Hgt]|Heq].
  - rewrite (sign_negative _ Hlt) in *. lra.
  - rewrite (sign_positive _ Hgt) in *. lra.
  - assert (Hp : p - soft == p - hard) by lra. rewrite Hp. exact Hh.
Qed.

Lemma code_test_crossed (d limit p : double) :
  ltb (d * (limit - p)) 0 = true <-> crossed d limit p.
Proof.
  rewrite ltb_lt. unfold crossed. split; intros H; lra.
Qed.

(** C2. For a constraint on a joint [k] of the chain, with
    [direction = sign (hard_limit - soft_limit)]: when the position of
    joint [k] is past the hard limit, its effort is
    [stiffness * (soft_limit - position)] and nothing else; when it is
    past the soft limit but not the hard one, that term is added to the
    effort projected from the wrench; when it is not past the soft limit
    the projected effort is sent as it is.  With soft limit 1.0, hard
    limit 1.5 and position 1.6 the joint is past the hard limit, so its
    effort is [stiffness * (soft_limit - position)], whatever the desired
    wrench; with stiffness 10 and the constraint step evaluated in
    binary64, the position being the double nearest to 1.6, that effort
    is [below_minus_six], one unit in the last place below -6, whatever
    the effort held before. *)
Theorem constraint_spring (c : Controller) (ch : Chain)
    (position task : double) :
  sized c ch -> allCalibrated ch = true ->
  (0 <= joint (constraint_ c) < Z.of_nat (nr_of_joints c))%Z ->
  (Z.of_nat (nr_of_joints c) <= INT_MAX)%Z ->
  let soft := soft_limit (constraint_ c) in
  let hard := hard_limit (constraint_ c) in
  let k := Z.to_nat (joint (constraint_ c)) in
  let direction := sign (hard - soft) in
  let spring := stiffness (constraint_ c) * (soft - position) in
  (position_ <$> ch) !! k = Some position ->
  task_efforts c ch !! k = Some task ->
  exists c' eff,
    update c ch = Some (c', Some eff)
    /\ (crossed direction hard position -> eff !! k = Some spring)
    /\ (crossed direction soft position ->
        ~ crossed direction hard position ->
        eff !! k = Some (task + spring))
    /\ (~ crossed direction soft position -> eff !! k = Some task)
    /\ (soft == 1.0 -> hard == 1.5 -> position == 1.6 ->
        eff !! k = Some spring)
    /\ (forall pos64 eff64 : list PrimFloat.float,
          pos64 !! k = Some one_point_six -> (k < length eff64)%nat ->
          exists eff',
            apply_constraint_in binary64 (sign_in binary64)
              (joint (constraint_ c)) 1%float 1.5%float 10%float
              (nr_of_joints c) pos64 eff64
            = Some eff'
            /\ eff' !! k = Some below_minus_six).
Proof.
  intros Hsz Hcal Hk Hmax soft hard k direction spring Hpos Htask.
  assert (Hlen : (k < length (task_efforts c ch))%nat)
    by (eapply lookup_lt_Some; done).
  assert (H64 : forall pos64 eff64 : list PrimFloat.float,
            pos64 !! k = Some one_point_six -> (k < length eff64)%nat ->
            exists eff',
              apply_constraint_in binary64 (sign_in binary64)
                (joint (constraint_ c)) 1%float 1.5%float 10%float
                (nr_of_joints c) pos64 eff64
              = Some eff'
              /\ eff' !! k = Some below_minus_six).
  { intros pos64 eff64 Hp64 Hl64. eexists. split.
    - apply binary64_past_hard_limit; done.
    - apply list_lookup_insert_eq. exact Hl64. }
  rewrite update_calibrated by done.
  unfold CartesianWrenchController.apply_constraint.
  rewrite to_int_small by (unfold INT_MAX in *; lia).
  replace ((0 <=? joint (constraint_ c))%Z
           && (joint (constraint_ c) <? Z.of_nat (nr_of_joints c))%Z)
    with true by (symmetry; rewrite andb_true_iff, Z.leb_le, Z.ltb_lt; lia).
  cbv zeta. fold soft hard k. fold direction.
  unfold jnt_read. rewrite Hpos. simpl. fold spring.
  destruct (ltb (direction * (hard - position)) 0) eqn:Hhard.
  - apply code_test_crossed in Hhard.
    assert (Hsoft := crossed_hard_soft _ _ _ Hhard).
    rewrite jnt_write_defined by done. simpl. do 2 eexists.
    split; [reflexivity|].
    assert (Hres : <[k:=spring]> (task_efforts c ch) !! k = Some spring)
      by (apply list_lookup_insert_eq; done).
    split; [done|]. split; [done|]. split; [done|]. split; done.
  - assert (Hnh : ~ crossed direction hard position).
    { rewrite <- code_test_crossed, Hhard. discriminate. }
    assert (Hinst : soft == 1.0 -> hard == 1.5 -> position == 1.6 -> False).
    { intros Hs Hh Hp. apply Hnh. unfold crossed.
      subst direction. rewrite sign_positive by lra. lra. }
    destruct (ltb (direction * (soft - position)) 0) eqn:Hsoft.
    + apply code_test_crossed in Hsoft. rewrite Htask. simpl.
      rewrite jnt_write_defined by done. simpl. do 2 eexists.
      split; [reflexivity|].
      assert (Hres : <[k:=task + spring]> (task_efforts c ch) !! k
                     = Some (task + spring))
        by (apply list_lookup_insert_eq; done).
      split; [done|]. split; [done|]. split; [done|]. split; [|done].
      intros Hs Hh Hp. destruct (Hinst Hs Hh Hp).
    + assert (Hns : ~ crossed direction soft position).
      { rewrite <- code_test_crossed, Hsoft. discriminate. }
      simpl. do 2 eexists. split; [reflexivity|].
      split; [done|]. split; [done|]. split; [done|]. split; [|done].
      intros Hs Hh Hp. destruct (Hinst Hs Hh Hp).
Qed.

(** C9. On a calibrated chain the constraint touches no entry but that of
    the constrained joint: every other entry of the efforts sent to the
    chain is the Jacobian-transpose projection, wherever the constrained
    joint stands relative to its limits. *)
Theorem constraint_frame (c : Controller) (ch : Chain) (i : nat) :
  sized c ch -> allCalibrated ch = true ->
  (i < nr_of_joints c)%nat -> Z.of_nat i <> joint (constraint_ c) ->
  exists c' eff e,
    update c ch = Some (c', Some eff)
    /\ eff !! i = Some e
    /\ task_efforts c ch !! i = Some e
    /\ e == transpose_projection (JntToJac (position_ <$> ch))
             (wrench_desi_ c) i.
Proof.
  intros Hsz Hcal Hi Hne. pose proof Hsz as (Hch & Hpos & Heff & HJ).
  destruct (apply_constraint_defined (constraint_ c) (nr_of_joints c)
              (position_ <$> ch) (task_efforts c ch))
    as (eff & Hc & _ & Hother).
  { rewrite length_fmap. done. }
  { rewrite task_efforts_length. done. }
  rewrite update_calibrated, Hc by done. simpl. do 3 eexists.
  split; [reflexivity|]. rewrite (Hother i Hne).
  rewrite task_efforts_lookup by done.
  split; [reflexivity|]. split; [reflexivity|]. apply accumulated_transpose.
Qed.

(** C10. When the constrained joint index is negative or not below the
    number of joints of the chain, a tick on a calibrated chain sends the
    Jacobian-transpose efforts as they are, one entry per joint; the
    constraint step returns the efforts it is given without reading or
    writing any entry, whatever the sizes of the arrays. *)
Theorem constraint_out_of_range (c : Controller) (ch : Chain) :
  sized c ch -> allCalibrated ch = true ->
  (joint (constraint_ c) < 0
   \/ Z.of_nat (nr_of_joints c) <= joint (constraint_ c))%Z ->
  (exists c', update c ch = Some (c', Some (task_efforts c ch)))
  /\ (forall pos eff,
        apply_constraint (constraint_ c) (nr_of_joints c) pos eff = Some eff)
  /\ length (task_efforts c ch) = nr_of_joints c
  /\ (forall i, (i < nr_of_joints c)%nat ->
        exists e, task_efforts c ch !! i = Some e
          /\ e == transpose_projection (JntToJac (position_ <$> ch))
                   (wrench_desi_ c) i).
Proof.
  intros Hsz Hcal Hout. pose proof Hsz as (Hch & Hpos & Heff & HJ).
  split.
  { rewrite update_calibrated by done.
    rewrite apply_constraint_unguarded by done. simpl. eexists. reflexivity. }
  split; [intros pos eff; apply apply_constraint_unguarded; done|]. split.
  - rewrite task_efforts_length. done.
  - intros i Hi. eexists. split; [apply task_efforts_lookup; done|].
    apply accumulated_transpose.
Qed.

End Kinematics.

End CartesianWrenchProofs.

(** ** The Cartesian wrench controller on a six-joint chain *)

Module CartesianWrenchExamples.

Import (notations) PrimFloat.
Import CartesianWrenchController CartesianWrenchProofs Scenarios.
Import ConstraintArithmetic ConstraintArithmeticProofs.

Lemma KDL_sign_positive (a : double) : 0 < a -> KDL_sign a == 1.
Proof.
  intros Ha. unfold KDL_sign. destruct (ltb a 0) eqn:Hlt; [|reflexivity].
  apply ltb_lt in Hlt. lra.
Qed.

Lemma KDL_sign_negative (a : double) : a < 0 -> KDL_sign a == -1.
Proof.
  intros Ha. unfold KDL_sign. destruct (ltb a 0) eqn:Hlt; [reflexivity|].
  apply ltb_ge in Hlt. lra.
Qed.

Lemma constrained_sized (k : Z) (W : Wrench) :
  sized identity_solver (constrained k W) six_joints.
Proof.
  repeat split; try reflexivity. simpl. repeat constructor.
Defined.

(** The efforts sent for the wrench [push_z] with joint 2 past its hard
    limit: the projected 5 at joint 2 is replaced by the spring term,
    which is -6 in exact arithmetic. *)
Lemma past_hard_limit_efforts :
  exists c' eff,
    update KDL_sign identity_solver (constrained 2 push_z) six_joints
    = Some (c', Some eff)
    /\ Forall2 Qeq eff [0; 0; -6.0; 0; 0; 0]
    /\ Forall2 Qeq
         (task_efforts identity_solver (constrained 2 push_z) six_joints)
         [0; 0; 5; 0; 0; 0].
Proof.
  do 2 eexists. split; [vm_compute; reflexivity|].
  split; vm_compute; repeat constructor.
Qed.

(** Between the limits the spring term -2 is added to the projected 5. *)
Lemma between_limits_efforts :
  exists c' eff,
    update KDL_sign identity_solver (constrained 2 push_z) six_joints_between
    = Some (c', Some eff)
    /\ Forall2 Qeq eff [0; 0; 3; 0; 0; 0].
Proof.
  do 2 eexists. split; [vm_compute; reflexivity|].
  vm_compute; repeat constructor.
Qed.

Lemma uncalibrated_chain_is_skipped_witness :
  (exists j, j ∈ six_joints_uncalibrated /\ calibrated_ j = false)
  /\ update KDL_sign identity_solver (constrained 2 push_z)
       six_joints_uncalibrated
     = Some (constrained 2 push_z, None).
Proof.
  assert (H : exists j, j ∈ six_joints_uncalibrated /\ calibrated_ j = false).
  { exists (mkChainJoint 0 false). split; [|reflexivity].
    unfold six_joints_uncalibrated. do 5 apply list_elem_of_further.
    apply list_elem_of_here. }
  split; [exact H|].
  exact (uncalibrated_chain_is_skipped KDL_sign identity_solver _ _ H).
Defined.

Lemma efforts_are_transpose_projection_witness :
  sized identity_solver (constrained (-1) unit_force_x) six_joints
  /\ allCalibrated six_joints = true
  /\ Forall2 Qeq
       (task_efforts identity_solver (constrained (-1) unit_force_x) six_joints)
       [1; 0; 0; 0; 0; 0].
Proof.
  split; [apply constrained_sized|]. split; [reflexivity|].
  destruct (efforts_are_transpose_projection KDL_sign identity_solver
              (constrained (-1) unit_force_x) six_joints
              (constrained_sized _ _) eq_refl)
    as (_ & _ & _ & Hid).
  apply Hid; reflexivity.
Defined.

(** C2, at binary64.  With soft limit 1.0, hard limit 1.5, stiffness 10
    and joint 2 at the double nearest to 1.6, the constraint step leaves
    [below_minus_six] as the effort of joint 2, and that is not -6. *)
Lemma binary64_effort_is_not_minus_six :
  exists eff,
    apply_constraint_in binary64 (sign_in binary64) 2 1%float 1.5%float
      10%float 6 positions64 efforts64
    = Some eff
    /\ eff !! 2%nat = Some below_minus_six
    /\ PrimFloat.eqb below_minus_six (-6)%float = false.
Proof.
  eexists. split; [vm_compute; reflexivity|].
  split; reflexivity.
Qed.

Lemma constraint_spring_witness :
  sized identity_solver (constrained 2 push_z) six_joints
  /\ allCalibrated six_joints = true
  /\ (0 <= 2 < Z.of_nat 6)%Z
  /\ (Z.of_nat 6 <= INT_MAX)%Z
  /\ (position_ <$> six_joints) !! 2%nat = Some 1.6
  /\ task_efforts identity_solver (constrained 2 push_z) six_joints !! 2%nat
     = Some (accumulated identity_jacobian push_z 2)
  /\ positions64 !! 2%nat = Some one_point_six
  /\ (2 < length efforts64)%nat
  /\ (exists c' eff,
        update KDL_sign identity_solver (constrained 2 push_z) six_joints
        = Some (c', Some eff)
        /\ eff !! 2%nat = Some (10 * (1.0 - 1.6)))
  /\ (exists eff',
        apply_constraint_in binary64 (sign_in binary64) 2 1%float 1.5%float
          10%float 6 positions64 efforts64
        = Some eff'
        /\ eff' !! 2%nat = Some below_minus_six).
Proof.
  assert (Hk : (0 <= 2 < Z.of_nat 6)%Z) by (simpl; lia).
  assert (Hm : (Z.of_nat 6 <= INT_MAX)%Z) by (unfold INT_MAX; simpl; lia).
  assert (Hl : (2 < length efforts64)%nat) by (simpl; lia).
  split; [apply constrained_sized|]. split; [reflexivity|]. split; [exact Hk|].
  split; [exact Hm|]. split; [reflexivity|]. split; [reflexivity|].
  split; [reflexivity|]. split; [exact Hl|].
  destruct (constraint_spring KDL_sign identity_solver
              KDL_sign_positive KDL_sign_negative
              (constrained 2 push_z) six_joints 1.6
              (accumulated identity_jacobian push_z 2)
              (constrained_sized _ _) eq_refl Hk Hm eq_refl eq_refl)
    as (c' & eff & Hupd & _ & _ & _ & Hinst & H64).
  split.
  - exists c', eff. split; [exact Hupd|].
    apply Hinst; reflexivity.
  - exact (H64 positions64 efforts64 eq_refl Hl).
Defined.

Lemma constraint_frame_witness :
  sized identity_solver (constrained 2 push_z) six_joints
  /\ allCalibrated six_joints = true
  /\ (0 < 6)%nat /\ Z.of_nat 0 <> 2%Z
  /\ exists c' eff e,
       update KDL_sign identity_solver (constrained 2 push_z) six_joints
       = Some (c', Some eff)
       /\ eff !! 0%nat = Some e
       /\ e == transpose_projection identity_jacobian push_z 0.
Proof.
  assert (Hi : (0 < 6)%nat) by (repeat constructor).
  assert (Hne : Z.of_nat 0 <> 2%Z) by discriminate.
  split; [apply constrained_sized|]. split; [reflexivity|]. split; [exact Hi|].
  split; [exact Hne|].
  destruct (constraint_frame KDL_sign identity_solver
              (constrained 2 push_z) six_joints 0
              (constrained_sized _ _) eq_refl Hi Hne)
    as (c' & eff & e & Hupd & He & _ & Hv).
  exists c', eff, e. split; [exact Hupd|]. split; [exact He|exact Hv].
Defined.

Lemma constraint_out_of_range_witness :
  sized identity_solver (constrained 6 push_z) six_joints
  /\ allCalibrated six_joints = true
  /\ (6 < 0 \/ Z.of_nat 6 <= 6)%Z
  /\ exists c',
       update KDL_sign identity_solver (constrained 6 push_z) six_joints
       = Some (c', Some (task_efforts identity_solver (constrained 6 push_z)
                           six_joints)).
Proof.
  assert (Ho : (6 < 0 \/ Z.of_nat 6 <= 6)%Z) by (right; simpl; lia).
  split; [apply constrained_sized|]. split; [reflexivity|]. split; [exact Ho|].
  exact (proj1 (constraint_out_of_range KDL_sign identity_solver
                  (constrained 6 push_z) six_joints
                  (constrained_sized _ _) eq_refl Ho)).
Defined.

End CartesianWrenchExamples.

(** ** The gripper calibration controller *)

Module GripperCalibrationProofs.

Import GripperCalibrationController.

Section Servo.

Context {ServoMem : Type}.
Variable servo_law :
  ServoMem -> double -> JointState -> Time -> ServoMem * double.

Local Abbreviation update := (update servo_law).
Local Abbreviation tick := (tick servo_law).
Local Abbreviation run := (run servo_law).

(** *** The inner servo leaves everything but efforts alone *)

Lemma vc_update_command (vc : JointVelocityController) j js now :
  command_ (fst (vc_update servo_law vc j js now)) = command_ vc.
Proof.
  unfold vc_update. destruct (js !! j); [|done].
  destruct (servo_law _ _ _ _). done.
Qed.

Lemma vc_update_length (vc : JointVelocityController) j js now :
  length (snd (vc_update servo_law vc j js now)) = length js.
Proof.
  unfold vc_update. destruct (js !! j); [|done].
  destruct (servo_law _ _ _ _). simpl. apply length_insert.
Qed.

Lemma vc_update_calibrated (vc : JointVelocityController) j js now i :
  calibrated_ <$> snd (vc_update servo_law vc j js now) !! i
  = calibrated_ <$> js !! i.
Proof.
  unfold vc_update. destruct (js !! j) as [jt|] eqn:Hj; [|done].
  destruct (servo_law _ _ _ _). simpl.
  destruct (decide (j = i)) as [->|Hne].
  - rewrite list_lookup_insert_eq by (eapply lookup_lt_Some; done).
    rewrite Hj. done.
  - rewrite list_lookup_insert_ne by done. done.
Qed.

(** *** [update] after its [switch] *)

Lemma same_but_servo_refl (c : @Controller ServoMem) w : same_but_servo c c w w.
Proof. split; done. Qed.

Lemma update_switch (c : Controller) (w : World) :
  let '(c1, w1, p1) := switch_state c w in
  let '(c2, w2, p2) := update c w in
  p2 = p1 /\ same_but_servo c1 c2 w1 w2
  /\ (state_ c1 = CALIBRATED -> c2 = c1 /\ w2 = w1).
Proof.
  unfold GripperCalibrationController.update.
  destruct (switch_state c w) as [[c1 w1] p1].
  destruct (state_ c).
  1: { split; [done|]. split; [apply same_but_servo_refl|done]. }
  all: destruct (decide (state_ c1 <> CALIBRATED)) as [Hne|He];
    [|split; [done|]; split; [apply same_but_servo_refl|done]].
  all: pose proof (vc_update_command (vc_ c1) (joint_ c1) (joint_states_ w1)
                    (getTime w1));
    pose proof (vc_update_length (vc_ c1) (joint_ c1) (joint_states_ w1)
                  (getTime w1));
    pose proof (vc_update_calibrated (vc_ c1) (joint_ c1) (joint_states_ w1)
                  (getTime w1));
    destruct (vc_update servo_law _ _ _ _) as [vc js];
    (split; [done|]); (split; [split; done|done]).
Qed.

(** *** One state at a time *)

Lemma switch_state_steps (c : @Controller ServoMem) (w : World) :
  steps_to (state_ c) (state_ (fst (fst (switch_state c w)))).
Proof.
  unfold steps_to, switch_state.
  destruct (state_ c) eqn:Hs; simpl; repeat case_match; simpl;
    rewrite ?Hs; auto.
Qed.

Lemma update_steps (c : Controller) (w : World) :
  steps_to (state_ c) (state_ (fst (fst (update c w)))).
Proof.
  pose proof (update_switch c w) as H.
  pose proof (switch_state_steps c w) as Hstep.
  destruct (switch_state c w) as [[c1 w1] p1].
  destruct (update c w) as [[c2 w2] p2].
  destruct H as (_ & Hsame & _). simpl in *.
  rewrite (sbs_state _ _ _ _ Hsame). exact Hstep.
Qed.

Lemma tick_steps (i : Input) (s : System) :
  steps_to (state_ (fst s)) (state_ (fst (fst (tick i s)))).
Proof.
  unfold GripperCalibrationController.tick.
  pose proof (update_steps (fst s) (sense i (fst s) (snd s))) as H.
  destruct (update _ _) as [[c w] p]. exact H.
Qed.

Lemma steps_to_rank (a b : State) : steps_to a b -> (rank a <= rank b)%nat.
Proof.
  intros [->|[Hne ->]]; [done|]. destruct a; simpl; lia.
Qed.

Lemma visited_head (ins : list Input) (s : System) :
  visited servo_law ins s !! 0%nat = Some (state_ (fst s)).
Proof. destruct ins; reflexivity. Qed.

Lemma visited_length (ins : list Input) (s : System) :
  length (visited servo_law ins s) = S (length ins).
Proof.
  revert s. induction ins as [|i ins IH]; intros s; simpl; [done|].
  rewrite IH. done.
Qed.

Lemma visited_adjacent (ins : list Input) (s : System) n a b :
  visited servo_law ins s !! n = Some a ->
  visited servo_law ins s !! S n = Some b ->
  steps_to a b.
Proof.
  revert s n. induction ins as [|i ins IH]; intros s n Ha Hb.
  - destruct n; discriminate.
  - destruct n as [|n]; simpl in Ha, Hb.
    + rewrite visited_head in Hb. injection Ha as <-. injection Hb as <-.
      apply tick_steps.
    + eapply IH; done.
Qed.

Lemma visited_monotone (ins : list Input) (s : System) n m a b :
  (n <= m)%nat ->
  visited servo_law ins s !! n = Some a ->
  visited servo_law ins s !! m = Some b ->
  (rank a <= rank b)%nat.
Proof.
  intros Hnm Ha. revert b. induction Hnm as [|m Hnm IH]; intros b Hb.
  - rewrite Ha in Hb. injection Hb as <-. done.
  - destruct (lookup_lt_is_Some_2 (visited servo_law ins s) m) as [x Hx].
    { apply lookup_lt_Some in Hb. lia. }
    pose proof (steps_to_rank _ _ (visited_adjacent _ _ _ _ _ Hx Hb)).
    specialize (IH x Hx). lia.
Qed.

Lemma compress_visited (ins : list Input) (s : System) :
  exists k, compress (visited servo_law ins s)
            = take (S k) (drop (rank (state_ (fst s))) calibration_order).
Proof.
  revert s. induction ins as [|i ins IH]; intros s.
  - exists 0%nat. simpl. destruct (state_ (fst s)); reflexivity.
  - destruct (IH (fst (tick i s))) as [k Hk].
    pose proof (tick_steps i s) as Hstep.
    pose proof (visited_head ins (fst (tick i s))) as Hhead.
    change (visited servo_law (i :: ins) s)
      with (state_ (fst s) :: visited servo_law ins (fst (tick i s))).
    destruct (visited servo_law ins (fst (tick i s))) as [|b rest] eqn:Hv;
      [discriminate|].
    injection Hhead as ->.
    change (compress (state_ (fst s) :: state_ (fst (fst (tick i s))) :: rest))
      with (if decide (state_ (fst s) = state_ (fst (fst (tick i s))))
            then compress (state_ (fst (fst (tick i s))) :: rest)
            else state_ (fst s)
                 :: compress (state_ (fst (fst (tick i s))) :: rest)).
    rewrite Hk. destruct Hstep as [Heq|[Hne Heq]]; rewrite Heq.
    + rewrite decide_True by done. exists k. done.
    + exists (S k). destruct (state_ (fst s)); try done; reflexivity.
Qed.

(** C4. Along every sequence of ticks the calibration state either stays
    or moves to the next state of the order INITIALIZED, BEGINNING,
    STARTING, CLOSING, CALIBRATED; it never moves back, never leaves
    CALIBRATED, and from INITIALIZED the states it goes through, in the
    order of their first visit, are an initial part of that order. *)
Theorem calibration_is_linear (ins : list Input) (s : System) :
  (forall n a b,
      visited servo_law ins s !! n = Some a ->
      visited servo_law ins s !! S n = Some b ->
      b = a \/ (a <> CALIBRATED /\ b = successor a))
  /\ (forall n m a b, (n <= m)%nat ->
      visited servo_law ins s !! n = Some a ->
      visited servo_law ins s !! m = Some b ->
      (rank a <= rank b)%nat)
  /\ (forall n m b, (n <= m)%nat ->
      visited servo_law ins s !! n = Some CALIBRATED ->
      visited servo_law ins s !! m = Some b ->
      b = CALIBRATED)
  /\ (state_ (fst s) = INITIALIZED ->
      exists k, compress (visited servo_law ins s)
                = take (S k) calibration_order).
Proof.
  split; [intros n a b; apply visited_adjacent|].
  split; [intros n m a b; apply visited_monotone|]. split.
  - intros n m b Hnm Ha Hb.
    pose proof (visited_monotone _ _ _ _ _ _ Hnm Ha Hb) as Hr.
    destruct b; simpl in Hr; done || lia.
  - intros Hinit. destruct (compress_visited ins s) as [k Hk].
    exists k. rewrite Hk, Hinit. reflexivity.
Qed.

(** *** Marking the dependent joints *)

Lemma calibrate_others_length (others : list nat) (js : list JointState) :
  length (calibrate_others others js) = length js.
Proof.
  unfold calibrate_others. revert js.
  induction others as [|o others IH]; intros js; simpl; [done|].
  rewrite IH. apply length_alter.
Qed.

Lemma calibrate_others_keeps (others : list nat) (js : list JointState) j :
  calibrated_ <$> js !! j = Some true ->
  calibrated_ <$> calibrate_others others js !! j = Some true.
Proof.
  unfold calibrate_others. revert js.
  induction others as [|o others IH]; intros js Hj; simpl; [done|].
  apply IH. destruct (decide (o = j)) as [->|Hne].
  - rewrite list_lookup_alter_eq. destruct (js !! j); [done|discriminate].
  - rewrite list_lookup_alter_ne by done. done.
Qed.

Lemma calibrate_others_sets (others : list nat) (js : list JointState) j :
  j ∈ others -> (j < length js)%nat ->
  calibrated_ <$> calibrate_others others js !! j = Some true.
Proof.
  unfold calibrate_others. revert js.
  induction others as [|o others IH]; intros js Hin Hlen; simpl.
  - inversion Hin.
  - destruct (decide (o = j)) as [->|Hne].
    + apply (calibrate_others_keeps others).
      rewrite list_lookup_alter_eq.
      destruct (lookup_lt_is_Some_2 js j Hlen) as [jt ->]. done.
    + apply IH; [|rewrite length_alter; done].
      apply elem_of_cons in Hin. destruct Hin as [->|Hin]; done.
Qed.

(** *** A tick in CLOSING *)

Lemma sensed_velocity (i : Input) (c : @Controller ServoMem) (w : World) :
  (joint_ c < length (joint_states_ w))%nat ->
  default 0 (velocity_ <$> joint_states_ (sense i c w) !! joint_ c)
  = in_velocity i.
Proof.
  intros Hj. unfold sense. simpl. rewrite list_lookup_alter_eq.
  destruct (lookup_lt_is_Some_2 _ _ Hj) as [jt ->]. done.
Qed.

Lemma closing_tick (c : Controller) (w : World) (i : Input) :
  state_ c = CLOSING ->
  (joint_ c < length (joint_states_ w))%nat ->
  let sc := if stalled i then to_int (stop_count_ c + 1) else 0%Z in
  let c' := fst (fst (tick i (c, w))) in
  let w' := snd (fst (tick i (c, w))) in
  joint_ c' = joint_ c /\ other_joints_ c' = other_joints_ c
  /\ length (joint_states_ w') = length (joint_states_ w)
  /\ stop_count_ c' = sc
  /\ if (100 <? sc)%Z
     then state_ c' = CALIBRATED
          /\ zero_offset_ (actuator_ w') = in_position i
          /\ position_ (actuator_ w') = in_position i
          /\ command_ (vc_ c') = 0
          /\ (forall j, j ∈ joint_ c :: other_joints_ c ->
                (j < length (joint_states_ w))%nat ->
                calibrated_ <$> joint_states_ w' !! j = Some true)
     else state_ c' = CLOSING.
Proof.
  intros Hs Hj sc c' w'. subst c' w'.
  unfold GripperCalibrationController.tick. simpl fst. simpl snd.
  pose proof (update_switch c (sense i c w)) as H.
  pose proof (sensed_velocity i c w Hj) as Hv.
  unfold switch_state in H. rewrite Hs in H. rewrite Hv in H.
  fold (stalled i) in H. clear Hv. subst sc.
  destruct (update c (sense i c w)) as [[c2 w2] p2]. simpl.
  assert (Hcalibrated :
    forall j, j ∈ joint_ c :: other_joints_ c ->
      (j < length (joint_states_ w))%nat ->
      calibrated_ <$>
        calibrate_others (other_joints_ c)
          (alter (set_calibrated true) (joint_ c)
             (alter (set_velocity (in_velocity i)) (joint_ c)
                (joint_states_ w))) !! j = Some true).
  { intros j Hin Hlen. apply elem_of_cons in Hin. destruct Hin as [->|Hin].
    - apply calibrate_others_keeps. rewrite !list_lookup_alter_eq.
      destruct (lookup_lt_is_Some_2 _ _ Hlen) as [jt ->]. done.
    - apply calibrate_others_sets; [done|]. rewrite !length_alter. done. }
  destruct (stalled i); simpl in H.
  - destruct (100 <? to_int (stop_count_ c + 1))%Z.
    + destruct H as (_ & _ & Hcal). destruct (Hcal eq_refl) as [-> ->].
      simpl. rewrite calibrate_others_length, !length_alter. done.
    + destruct H as (_ & Hsame & _). destruct Hsame. simpl in *.
      rewrite length_alter in *. repeat split; congruence.
  - destruct H as (_ & Hsame & _). destruct Hsame. simpl in *.
    rewrite length_alter in *. repeat split; congruence.
Qed.

(** While the counter stays at or below 100 a stalled tick in CLOSING
    only counts. *)
Lemma closing_counts (ins : list Input) (c : Controller) (w : World) :
  state_ c = CLOSING ->
  (joint_ c < length (joint_states_ w))%nat ->
  (0 <= stop_count_ c)%Z ->
  (stop_count_ c + Z.of_nat (length ins) <= 100)%Z ->
  Forall (fun i => stalled i = true) ins ->
  let s' := run ins (c, w) in
  state_ (fst s') = CLOSING
  /\ stop_count_ (fst s') = (stop_count_ c + Z.of_nat (length ins))%Z
  /\ joint_ (fst s') = joint_ c
  /\ other_joints_ (fst s') = other_joints_ c
  /\ length (joint_states_ (snd s')) = length (joint_states_ w).
Proof.
  revert c w. induction ins as [|i ins IH]; intros c w Hs Hj H0 Hle Hall.
  - simpl. repeat split; try done. lia.
  - inversion Hall as [|? ? Hi Hrest]; subst.
    pose proof (closing_tick c w i Hs Hj) as Ht. simpl in Ht.
    rewrite Hi in Ht. simpl length in Hle.
    rewrite to_int_small in Ht by (unfold INT_MAX; lia).
    destruct Ht as (Hjoint & Hothers & Hlen & Hcount & Hstate).
    replace (100 <? stop_count_ c + 1)%Z with false in Hstate
      by (symmetry; apply Z.ltb_ge; lia).
    unfold GripperCalibrationController.run. simpl foldl.
    fold (run ins (fst (tick i (c, w)))).
    destruct (fst (tick i (c, w))) as [c1 w1]. simpl in *.
    specialize (IH c1 w1 Hstate). simpl in IH.
    destruct IH as (? & ? & ? & ? & ?); try done; try lia.
    repeat split; try congruence; lia.
Qed.

Lemma run_app (ins1 ins2 : list Input) (s : System) :
  run (ins1 ++ ins2) s = run ins2 (run ins1 s).
Proof. apply foldl_app. Qed.

(** Hundred stalled ticks in a row are not enough. *)
Lemma closing_after_stalled (n : nat) (ins : list Input) (c : Controller)
    (w : World) :
  state_ c = CLOSING -> stop_count_ c = 0%Z ->
  (joint_ c < length (joint_states_ w))%nat ->
  (length ins <= 100)%nat ->
  Forall (fun i => stalled i = true) ins ->
  state_ (fst (run (take n ins) (c, w))) = CLOSING.
Proof.
  intros Hs H0 Hj Hlen Hall.
  apply (closing_counts (take n ins) c w); try done.
  - lia.
  - rewrite length_take. lia.
  - apply Forall_take. done.
Qed.

(** The length of the current run of stalled samples, from the samples
    themselves. *)
Lemma streak_stalled (ins : nat -> Input) (n k : nat) :
  (k < streak ins n)%nat ->
  (k < n)%nat /\ stalled (ins (n - 1 - k)%nat) = true.
Proof.
  revert k. induction n as [|n IH]; intros k Hk; simpl in Hk; [lia|].
  destruct (stalled (ins n)) eqn:Hn; [|lia].
  destruct k as [|k].
  - split; [lia|]. replace (S n - 1 - 0)%nat with n by lia. done.
  - destruct (IH k) as [Hlt Hst]; [lia|]. split; [lia|].
    replace (S n - 1 - S k)%nat with (n - 1 - k)%nat by lia. done.
Qed.

Lemma streak_below (L : nat) (ins : nat -> Input) :
  (forall start, exists k, (k < L)%nat /\ stalled (ins (start + k)%nat) = false) ->
  forall n, (streak ins n < L)%nat.
Proof.
  intros Hno n. destruct (decide (streak ins n < L)%nat) as [|Hge]; [done|].
  exfalso.
  assert (Hn : (L <= n)%nat).
  { destruct L as [|L]; [lia|].
    destruct (streak_stalled ins n L) as [? _]; lia. }
  destruct (Hno (n - L)%nat) as (k & Hk & Hfalse).
  destruct (streak_stalled ins n (L - 1 - k)) as [_ Htrue]; [lia|].
  replace (n - 1 - (L - 1 - k))%nat with (n - L + k)%nat in Htrue by lia.
  congruence.
Qed.

Lemma closing_stream (ins : nat -> Input) (c : Controller) (w : World) :
  state_ c = CLOSING -> stop_count_ c = 0%Z ->
  (joint_ c < length (joint_states_ w))%nat ->
  (forall n, (streak ins n <= 100)%nat) ->
  forall n,
    let s := run_stream servo_law ins n (c, w) in
    state_ (fst s) = CLOSING
    /\ stop_count_ (fst s) = Z.of_nat (streak ins n)
    /\ joint_ (fst s) = joint_ c
    /\ length (joint_states_ (snd s)) = length (joint_states_ w).
Proof.
  intros Hs H0 Hj Hbound n. induction n as [|n IH]; [simpl; done|].
  simpl in IH. destruct IH as (Hst & Hcnt & Hjoint & Hlen).
  simpl run_stream. specialize (Hbound (S n)). simpl in Hbound.
  destruct (run_stream servo_law ins n (c, w)) as [c1 w1]. simpl in *.
  pose proof (closing_tick c1 w1 (ins n) Hst) as Ht. simpl in Ht.
  destruct Ht as (Hj1 & _ & Hl1 & Hc1 & Hs1); [lia|].
  destruct (stalled (ins n)).
  - rewrite to_int_small in Hc1, Hs1 by (unfold INT_MAX; lia).
    replace (100 <? stop_count_ c1 + 1)%Z with false in Hs1
      by (symmetry; apply Z.ltb_ge; lia).
    repeat split; try congruence; lia.
  - simpl in Hs1. repeat split; try congruence; lia.
Qed.

(** C1, as the code has it.  From CLOSING with the stall counter at zero
    (as on entry to CLOSING and after every sample that is not stalled),
    a run of stalled samples keeps the state in CLOSING for its first
    100 ticks and takes it to CALIBRATED on the 101st; on that tick the
    actuator's zero offset becomes the raw position read on that tick,
    the primary joint and every dependent joint are marked calibrated,
    and the setpoint of the velocity servo is zero. *)
Theorem stall_debounce_calibrates (c : Controller) (w : World)
    (ins : list Input) (last : Input) :
  state_ c = CLOSING -> stop_count_ c = 0%Z -> handles_valid c w ->
  length ins = 100%nat ->
  Forall (fun i => stalled i = true) ins -> stalled last = true ->
  (forall n, state_ (fst (run (take n ins) (c, w))) = CLOSING)
  /\ let s' := run (ins ++ [last]) (c, w) in
     state_ (fst s') = CALIBRATED
     /\ zero_offset_ (actuator_ (snd s')) = in_position last
     /\ position_ (actuator_ (snd s')) = in_position last
     /\ (forall j, j ∈ joint_ c :: other_joints_ c ->
           calibrated_ <$> joint_states_ (snd s') !! j = Some true)
     /\ command_ (vc_ (fst s')) = 0.
Proof.
  intros Hs H0 Hvalid Hlen Hall Hlast.
  assert (Hj : (joint_ c < length (joint_states_ w))%nat).
  { unfold handles_valid in Hvalid. rewrite Forall_forall in Hvalid.
    apply Hvalid. apply list_elem_of_here. }
  split.
  - intros n. apply closing_after_stalled; done || lia.
  - rewrite run_app.
    destruct (closing_counts ins c w Hs Hj) as (Hs1 & Hc1 & Hj1 & Ho1 & Hl1);
      try done; try lia.
    destruct (run ins (c, w)) as [c1 w1]. simpl in Hs1, Hc1, Hj1, Ho1, Hl1.
    unfold GripperCalibrationController.run. simpl foldl.
    pose proof (closing_tick c1 w1 last Hs1) as Ht. simpl in Ht.
    rewrite Hlast, Hc1, H0, Hlen in Ht.
    destruct Ht as (_ & _ & _ & _ & Hst & Hzero & Hpos & Hcmd & Hflags);
      [lia|].
    repeat split; try done.
    intros j Hin. apply Hflags; [rewrite Hj1, Ho1; done|].
    rewrite Hl1. unfold handles_valid in Hvalid.
    rewrite Forall_forall in Hvalid. apply Hvalid. done.
Qed.

(** C8. From CLOSING with the stall counter at zero, along an endless
    sequence of samples that has no 100 stalled samples in a row, every
    stalled sample adds one to [stop_count_], every other sample sets it
    to zero, and the state is CLOSING after every tick. *)
Theorem no_stall_run_stays_closing (c : Controller) (w : World)
    (ins : nat -> Input) :
  state_ c = CLOSING -> stop_count_ c = 0%Z ->
  (joint_ c < length (joint_states_ w))%nat ->
  (forall start, exists k,
      (k < 100)%nat /\ stalled (ins (start + k)%nat) = false) ->
  forall n,
    state_ (fst (run_stream servo_law ins n (c, w))) = CLOSING
    /\ stop_count_ (fst (run_stream servo_law ins (S n) (c, w)))
       = (if stalled (ins n)
          then stop_count_ (fst (run_stream servo_law ins n (c, w))) + 1
          else 0)%Z.
Proof.
  intros Hs H0 Hj Hno n.
  assert (Hbound : forall m, (streak ins m <= 100)%nat).
  { intros m. pose proof (streak_below 100 ins Hno m). lia. }
  destruct (closing_stream ins c w Hs H0 Hj Hbound n) as (Hst & Hcnt & _).
  destruct (closing_stream ins c w Hs H0 Hj Hbound (S n)) as (_ & Hcnt' & _).
  split; [exact Hst|]. rewrite Hcnt', Hcnt. simpl streak.
  destruct (stalled (ins n)); lia.
Qed.

(** *** Publishing *)

Lemma switch_state_publish (c : @Controller ServoMem) (w : World) :
  if snd (switch_state c w)
  then state_ c = CALIBRATED /\ trylock w = true
       /\ (last_publish_time_ c + Duration_half_second < getTime w)%Z
       /\ last_publish_time_ (fst (fst (switch_state c w))) = getTime w
  else last_publish_time_ (fst (fst (switch_state c w)))
       = last_publish_time_ c.
Proof.
  unfold switch_state. destruct (state_ c) eqn:Hs; simpl; try done.
  - destruct (500 <? _)%Z; done.
  - destruct (ltb _ _); simpl; [destruct (100 <? _)%Z; done|done].
  - destruct (pub_calibrated_ c); [|done].
    destruct (_ <? _)%Z eqn:Hlt; [|done].
    destruct (trylock w); [|done].
    simpl. apply Z.ltb_lt in Hlt. done.
Qed.

Lemma tick_publish (i : Input) (s : System) :
  if snd (tick i s)
  then state_ (fst s) = CALIBRATED /\ in_trylock i = true
       /\ (last_publish_time_ (fst s) + Duration_half_second < in_time i)%Z
       /\ last_publish_time_ (fst (fst (tick i s))) = in_time i
  else last_publish_time_ (fst (fst (tick i s))) = last_publish_time_ (fst s).
Proof.
  unfold GripperCalibrationController.tick.
  pose proof (update_switch (fst s) (sense i (fst s) (snd s))) as H.
  pose proof (switch_state_publish (fst s) (sense i (fst s) (snd s))) as Hp.
  destruct (switch_state _ _) as [[c1 w1] p1].
  destruct (update _ _) as [[c2 w2] p2].
  destruct H as (-> & Hsame & _). simpl in *.
  rewrite (sbs_last _ _ _ _ Hsame). exact Hp.
Qed.

Lemma tick_last_publish_time (i : Input) (s : System) :
  (last_publish_time_ (fst s)
   <= last_publish_time_ (fst (fst (tick i s))))%Z.
Proof.
  pose proof (tick_publish i s) as H. unfold Duration_half_second in H.
  destruct (snd (tick i s)); [|lia].
  destruct H as (_ & _ & Hlt & ->). lia.
Qed.

Lemma run_last_publish_time (ins : list Input) (s : System) :
  (last_publish_time_ (fst s) <= last_publish_time_ (fst (run ins s)))%Z.
Proof.
  revert s. induction ins as [|i ins IH]; intros s; [simpl; lia|].
  unfold GripperCalibrationController.run. simpl foldl.
  fold (run ins (fst (tick i s))).
  pose proof (tick_last_publish_time i s). specialize (IH (fst (tick i s))).
  lia.
Qed.

(** C7. Of two ticks of a run that both publish the calibrated event,
    the later one happens more than half a second after the earlier one;
    and a tick on which the publisher's lock cannot be taken publishes
    nothing and leaves [last_publish_time_] as it was. *)
Theorem calibrated_event_is_throttled (s : System) (ins : list Input) :
  (forall n m i_n i_m, (n < m)%nat ->
      ins !! n = Some i_n -> ins !! m = Some i_m ->
      snd (tick i_n (run (take n ins) s)) = true ->
      snd (tick i_m (run (take m ins) s)) = true ->
      (in_time i_n + Duration_half_second < in_time i_m)%Z)
  /\ (forall i, in_trylock i = false ->
      snd (tick i s) = false
      /\ last_publish_time_ (fst (fst (tick i s)))
         = last_publish_time_ (fst s)).
Proof.
  split.
  - intros n m i_n i_m Hnm Hn Hm Hpn Hpm.
    assert (Hsplit : take m ins
                     = take n ins ++ i_n :: drop (S n) (take m ins)).
    { rewrite <- (take_drop_middle (take m ins) n i_n) at 1.
      - rewrite take_take. replace (n `min` m)%nat with n by lia. done.
      - rewrite lookup_take_lt by done. done. }
    pose proof (tick_publish i_n (run (take n ins) s)) as Hearlier.
    pose proof (tick_publish i_m (run (take m ins) s)) as Hlater.
    rewrite Hpn in Hearlier. rewrite Hpm in Hlater.
    destruct Hearlier as (_ & _ & _ & Hset).
    destruct Hlater as (_ & _ & Hlt & _).
    rewrite Hsplit, run_app in Hlt.
    unfold GripperCalibrationController.run in Hlt at 1. simpl foldl in Hlt.
    fold (run (drop (S n) (take m ins))
              (fst (tick i_n (run (take n ins) s)))) in Hlt.
    pose proof (run_last_publish_time (drop (S n) (take m ins))
                  (fst (tick i_n (run (take n ins) s)))) as Hmono.
    lia.
  - intros i Hlock. pose proof (tick_publish i s) as H.
    destruct (snd (tick i s)); [|done].
    destruct H as (_ & Htrue & _). congruence.
Qed.

(** *** The tick in BEGINNING *)

(** C5, as the code has it.  The tick that executes BEGINNING sets both
    counters to zero, clears the calibration flag of the primary joint,
    leaves the flag of every other joint as it is, sets the actuator's
    zero offset to zero, commands the velocity servo at
    [search_velocity_] and moves on to STARTING. *)
Theorem beginning_tick (c : Controller) (w : World) :
  state_ c = BEGINNING ->
  (joint_ c < length (joint_states_ w))%nat ->
  let c' := fst (fst (update c w)) in
  let w' := snd (fst (update c w)) in
  count_ c' = 0%Z /\ stop_count_ c' = 0%Z
  /\ calibrated_ <$> joint_states_ w' !! joint_ c = Some false
  /\ (forall j, j <> joint_ c ->
        calibrated_ <$> joint_states_ w' !! j
        = calibrated_ <$> joint_states_ w !! j)
  /\ zero_offset_ (actuator_ w') = 0
  /\ command_ (vc_ c') = search_velocity_ c
  /\ state_ c' = STARTING.
Proof.
  intros Hs Hj c' w'. subst c' w'.
  pose proof (update_switch c w) as H.
  unfold switch_state in H. rewrite Hs in H.
  destruct (update c w) as [[c2 w2] p2]. simpl in *.
  destruct H as (_ & Hsame & _). destruct Hsame; simpl in *.
  repeat split; try done.
  - rewrite sbs_flags0, list_lookup_alter_eq.
    destruct (lookup_lt_is_Some_2 _ _ Hj) as [jt ->]. done.
  - intros j Hne. rewrite sbs_flags0, list_lookup_alter_ne by done. done.
  - rewrite sbs_actuator0. done.
Qed.

End Servo.

End GripperCalibrationProofs.

(** ** The gripper calibration controller on a three-joint gripper *)

Module GripperCalibrationExamples.

Import GripperCalibrationController GripperCalibrationProofs Scenarios.

Lemma closing_entry_reached :
  run proportional (repeat moving 503) (fresh, gripper) = closing_entry.
Proof. vm_compute. reflexivity. Qed.

Lemma calibrated_system_reached :
  run proportional (repeat still 101) closing_entry = calibrated_system.
Proof. vm_compute. reflexivity. Qed.

Lemma still_is_stalled : stalled still = true.
Proof. reflexivity. Qed.

Lemma hundred_still : Forall (fun i => stalled i = true) (repeat still 100).
Proof.
  apply Forall_forall. intros i Hi.
  apply list_elem_of_In, repeat_spec in Hi. subst. reflexivity.
Qed.

(** After 100 stalled ticks in a row from the entry to CLOSING the state
    is still CLOSING: the 100th stalled tick does not calibrate. *)
Lemma hundredth_stalled_tick_keeps_closing :
  run proportional (repeat moving 503) (fresh, gripper) = closing_entry
  /\ state_ (fst closing_entry) = CLOSING
  /\ forallb stalled (repeat still 100) = true
  /\ state_ (fst (run proportional (repeat still 100) closing_entry))
     <> CALIBRATED.
Proof.
  split; [exact closing_entry_reached|]. split; [reflexivity|].
  split; [vm_compute; reflexivity|]. vm_compute. discriminate.
Qed.

Lemma stall_debounce_calibrates_witness :
  state_ closing_controller = CLOSING
  /\ stop_count_ closing_controller = 0%Z
  /\ handles_valid closing_controller closing_world
  /\ length (repeat still 100) = 100%nat
  /\ Forall (fun i => stalled i = true) (repeat still 100)
  /\ stalled still = true
  /\ state_ (fst (run proportional (repeat still 100 ++ [still])
                    (closing_controller, closing_world)))
     = CALIBRATED.
Proof.
  assert (Hv : handles_valid closing_controller closing_world).
  { unfold handles_valid. simpl. repeat constructor. }
  assert (Hl : length (repeat still 100) = 100%nat) by apply repeat_length.
  split; [reflexivity|]. split; [reflexivity|]. split; [exact Hv|].
  split; [exact Hl|]. split; [exact hundred_still|].
  split; [exact still_is_stalled|].
  exact (proj1 (proj2 (stall_debounce_calibrates proportional
                         closing_controller closing_world
                         (repeat still 100) still
                         eq_refl eq_refl Hv Hl hundred_still
                         still_is_stalled))).
Defined.

(** The whole calibration of the gripper goes through the five states
    in order. *)
Lemma gripper_calibration_states :
  compress (visited proportional (repeat moving 503 ++ repeat still 101)
              (fresh, gripper))
  = calibration_order.
Proof. vm_compute. reflexivity. Qed.

Lemma calibration_is_linear_witness :
  state_ (fst (fresh, gripper)) = INITIALIZED
  /\ exists k,
       compress (visited proportional (repeat moving 503 ++ repeat still 101)
                   (fresh, gripper))
       = take (S k) calibration_order.
Proof.
  split; [reflexivity|].
  exact (proj2 (proj2 (proj2
           (calibration_is_linear proportional
              (repeat moving 503 ++ repeat still 101) (fresh, gripper))))
           eq_refl).
Defined.

(** The controller is in BEGINNING one tick after its construction. *)
Lemma beginning_after_first_tick :
  fst (fst (tick proportional moving (fresh, gripper)))
  = with_state BEGINNING fresh.
Proof. reflexivity. Qed.

(** The tick in BEGINNING leaves the dependent joint 1, calibrated by an
    earlier run, flagged as calibrated, while the flag of the primary
    joint is cleared. *)
Lemma beginning_keeps_dependent_flag :
  state_ (with_state BEGINNING fresh) = BEGINNING
  /\ other_joints_ (with_state BEGINNING fresh) = [1%nat; 2%nat]
  /\ calibrated_ <$> joint_states_ gripper !! 1%nat = Some true
  /\ calibrated_ <$>
       joint_states_
         (snd (fst (update proportional (with_state BEGINNING fresh) gripper)))
       !! 1%nat
     <> Some false
  /\ calibrated_ <$>
       joint_states_
         (snd (fst (update proportional (with_state BEGINNING fresh) gripper)))
       !! 0%nat
     = Some false.
Proof.
  split; [reflexivity|]. split; [reflexivity|]. split; [reflexivity|].
  split; [vm_compute; discriminate|vm_compute; reflexivity].
Qed.

Lemma beginning_tick_witness :
  state_ (with_state BEGINNING fresh) = BEGINNING
  /\ (joint_ (with_state BEGINNING fresh) < length (joint_states_ gripper))%nat
  /\ state_ (fst (fst (update proportional (with_state BEGINNING fresh)
                         gripper)))
     = STARTING
  /\ command_ (vc_ (fst (fst (update proportional
                                (with_state BEGINNING fresh) gripper))))
     = 0.5.
Proof.
  assert (Hj : (joint_ (with_state BEGINNING fresh)
                < length (joint_states_ gripper))%nat)
    by (simpl; repeat constructor).
  split; [reflexivity|]. split; [exact Hj|].
  destruct (beginning_tick proportional (with_state BEGINNING fresh) gripper
              eq_refl Hj) as (_ & _ & _ & _ & _ & Hcmd & Hst).
  split; [exact Hst|exact Hcmd].
Defined.

(** Of three ticks after calibration, the first and the third publish. *)
Lemma calibrated_event_is_throttled_witness :
  (0 < 2)%nat
  /\ three_ticks !! 0%nat = Some (at_time 1000000000 true)
  /\ three_ticks !! 2%nat = Some (at_time 1600000000 true)
  /\ snd (tick proportional (at_time 1000000000 true)
            (run proportional (take 0 three_ticks) calibrated_system)) = true
  /\ snd (tick proportional (at_time 1600000000 true)
            (run proportional (take 2 three_ticks) calibrated_system)) = true
  /\ (in_time (at_time 1000000000 true) + Duration_half_second
      < in_time (at_time 1600000000 true))%Z.
Proof.
  assert (Hnm : (0 < 2)%nat) by (repeat constructor).
  assert (Hp0 : snd (tick proportional (at_time 1000000000 true)
                       (run proportional (take 0 three_ticks)
                          calibrated_system))
                = true) by (vm_compute; reflexivity).
  assert (Hp2 : snd (tick proportional (at_time 1600000000 true)
                       (run proportional (take 2 three_ticks)
                          calibrated_system))
                = true) by (vm_compute; reflexivity).
  split; [exact Hnm|]. split; [reflexivity|]. split; [reflexivity|].
  split; [exact Hp0|]. split; [exact Hp2|].
  exact (proj1 (calibrated_event_is_throttled proportional calibrated_system
                  three_ticks) 0%nat 2%nat _ _ Hnm eq_refl eq_refl Hp0 Hp2).
Defined.

(** The tick at 1.2 s comes too early and publishes nothing. *)
Lemma early_tick_does_not_publish :
  snd (tick proportional (at_time 1200000000 true)
         (run proportional [at_time 1000000000 true] calibrated_system))
  = false.
Proof. vm_compute. reflexivity. Qed.

Lemma alternating_never_rests (start : nat) :
  exists k, (k < 100)%nat /\ stalled (alternating (start + k)) = false.
Proof.
  unfold alternating. destruct (Nat.even start) eqn:He.
  - exists 0%nat. split; [lia|]. rewrite Nat.add_0_r, He. reflexivity.
  - exists 1%nat. split; [lia|].
    rewrite Nat.add_1_r, Nat.even_succ, <- Nat.negb_even, He. reflexivity.
Qed.

Lemma no_stall_run_stays_closing_witness :
  state_ closing_controller = CLOSING
  /\ stop_count_ closing_controller = 0%Z
  /\ (joint_ closing_controller < length (joint_states_ closing_world))%nat
  /\ (forall start, exists k,
        (k < 100)%nat /\ stalled (alternating (start + k)) = false)
  /\ state_ (fst (run_stream proportional alternating 1000
                    (closing_controller, closing_world)))
     = CLOSING.
Proof.
  assert (Hj : (joint_ closing_controller
                < length (joint_states_ closing_world))%nat)
    by (simpl; repeat constructor).
  split; [reflexivity|]. split; [reflexivity|]. split; [exact Hj|].
  split; [exact alternating_never_rests|].
  exact (proj1 (no_stall_run_stays_closing proportional
                  closing_controller closing_world alternating
                  eq_refl eq_refl Hj alternating_never_rests 1000%nat)).
Defined.

End GripperCalibrationExamples.

(** ** More on the gripper calibration controller *)

Module GripperCalibrationMore.

Import GripperCalibrationController GripperCalibrationProofs.

Section Servo.

Context {ServoMem : Type}.
Variable servo_law :
  ServoMem -> double -> JointState -> Time -> ServoMem * double.

Local Abbreviation update := (update servo_law).
Local Abbreviation tick := (tick servo_law).
Local Abbreviation run := (run servo_law).

(** *** What a tick leaves alone *)

Lemma sense_flags (i : Input) (c : @Controller ServoMem) (w : World) j :
  calibrated_ <$> joint_states_ (sense i c w) !! j
  = calibrated_ <$> joint_states_ w !! j.
Proof.
  unfold sense. simpl. destruct (decide (joint_ c = j)) as [->|Hne].
  - rewrite list_lookup_alter_eq. destruct (joint_states_ w !! j); done.
  - rewrite list_lookup_alter_ne by done. done.
Qed.

Lemma sense_efforts (i : Input) (c : @Controller ServoMem) (w : World) j :
  commanded_effort_ <$> joint_states_ (sense i c w) !! j
  = commanded_effort_ <$> joint_states_ w !! j.
Proof.
  unfold sense. simpl. destruct (decide (joint_ c = j)) as [->|Hne].
  - rewrite list_lookup_alter_eq. destruct (joint_states_ w !! j); done.
  - rewrite list_lookup_alter_ne by done. done.
Qed.

(** The handles, the search velocity and the publisher are set once and
    for all, and no tick adds or removes a joint state. *)
Lemma tick_config (i : Input) (s : System) :
  let s' := fst (tick i s) in
  joint_ (fst s') = joint_ (fst s)
  /\ other_joints_ (fst s') = other_joints_ (fst s)
  /\ search_velocity_ (fst s') = search_velocity_ (fst s)
  /\ pub_calibrated_ (fst s') = pub_calibrated_ (fst s)
  /\ length (joint_states_ (snd s')) = length (joint_states_ (snd s)).
Proof.
  destruct s as [c w]. unfold GripperCalibrationController.tick. simpl.
  pose proof (update_switch servo_law c (sense i c w)) as H.
  assert (Hsw :
    let c1 := fst (fst (switch_state c (sense i c w))) in
    let w1 := snd (fst (switch_state c (sense i c w))) in
    joint_ c1 = joint_ c /\ other_joints_ c1 = other_joints_ c
    /\ search_velocity_ c1 = search_velocity_ c
    /\ pub_calibrated_ c1 = pub_calibrated_ c
    /\ length (joint_states_ w1) = length (joint_states_ w)).
  { unfold switch_state. destruct (state_ c); simpl;
      repeat case_match; simpl;
      rewrite ?calibrate_others_length, ?length_alter; done. }
  destruct (switch_state c (sense i c w)) as [[c1 w1] p1].
  destruct (update c (sense i c w)) as [[c2 w2] p2]. simpl in *.
  destruct H as (_ & Hsame & _). destruct Hsame.
  destruct Hsw as (? & ? & ? & ? & ?). repeat split; congruence.
Qed.

Lemma run_cons (i : Input) (ins : list Input) (s : System) :
  run (i :: ins) s = run ins (fst (tick i s)).
Proof. reflexivity. Qed.

Lemma run_config (ins : list Input) (s : System) :
  let s' := run ins s in
  joint_ (fst s') = joint_ (fst s)
  /\ other_joints_ (fst s') = other_joints_ (fst s)
  /\ search_velocity_ (fst s') = search_velocity_ (fst s)
  /\ pub_calibrated_ (fst s') = pub_calibrated_ (fst s)
  /\ length (joint_states_ (snd s')) = length (joint_states_ (snd s)).
Proof.
  revert s. induction ins as [|i ins IH]; intros s; [done|].
  rewrite run_cons. specialize (IH (fst (tick i s))).
  pose proof (tick_config i s) as Ht. simpl in *.
  destruct IH as (? & ? & ? & ? & ?), Ht as (? & ? & ? & ? & ?).
  repeat split; congruence.
Qed.

(** *** The first ticks *)

Lemma initialized_tick (i : Input) (c : Controller) (w : World) :
  state_ c = INITIALIZED ->
  fst (tick i (c, w)) = (with_state BEGINNING c, sense i c w).
Proof.
  intros Hs. unfold GripperCalibrationController.tick,
    GripperCalibrationController.update, switch_state. simpl.
  rewrite Hs. reflexivity.
Qed.

Lemma beginning_step (i : Input) (c : Controller) (w : World) :
  state_ c = BEGINNING ->
  let c' := fst (fst (tick i (c, w))) in
  let w' := snd (fst (tick i (c, w))) in
  state_ c' = STARTING /\ count_ c' = 0%Z /\ stop_count_ c' = 0%Z
  /\ command_ (vc_ c') = search_velocity_ c
  /\ zero_offset_ (actuator_ w') = 0
  /\ ((joint_ c < length (joint_states_ w))%nat ->
      calibrated_ <$> joint_states_ w' !! joint_ c = Some false).
Proof.
  intros Hs. unfold GripperCalibrationController.tick. simpl.
  pose proof (update_switch servo_law c (sense i c w)) as H.
  unfold switch_state in H. rewrite Hs in H.
  destruct (update c (sense i c w)) as [[c2 w2] p2]. simpl in *.
  destruct H as (_ & Hsame & _). destruct Hsame; simpl in *.
  repeat split; try done.
  - rewrite sbs_actuator0. done.
  - intros Hj. rewrite sbs_flags0, !list_lookup_alter_eq.
    destruct (lookup_lt_is_Some_2 _ _ Hj) as [jt ->]. done.
Qed.

(** A tick in STARTING counts, and moves on when the count exceeds 500;
    it leaves flags, zero offset and setpoint alone. *)
Lemma starting_tick (i : Input) (c : Controller) (w : World) :
  state_ c = STARTING ->
  let c' := fst (fst (tick i (c, w))) in
  let w' := snd (fst (tick i (c, w))) in
  (if (500 <? to_int (count_ c + 1))%Z
   then state_ c' = CLOSING /\ count_ c' = 0%Z /\ stop_count_ c' = 0%Z
   else state_ c' = STARTING /\ count_ c' = to_int (count_ c + 1)
        /\ stop_count_ c' = stop_count_ c)
  /\ command_ (vc_ c') = command_ (vc_ c)
  /\ zero_offset_ (actuator_ w') = zero_offset_ (actuator_ w)
  /\ (forall j, calibrated_ <$> joint_states_ w' !! j
                = calibrated_ <$> joint_states_ w !! j).
Proof.
  intros Hs. unfold GripperCalibrationController.tick. simpl.
  pose proof (update_switch servo_law c (sense i c w)) as H.
  unfold switch_state in H. rewrite Hs in H. simpl in H.
  destruct (update c (sense i c w)) as [[c2 w2] p2]. simpl.
  destruct (500 <? to_int (count_ c + 1))%Z;
    destruct H as (_ & Hsame & _); destruct Hsame; simpl in *;
    (repeat split; try congruence);
    try (rewrite sbs_actuator0; done);
    intros j; rewrite sbs_flags0; apply (sense_flags i c w).
Qed.

(** A tick in CLOSING without assuming anything of the joint handle:
    the sample is counted or the counter is reset, and the state moves
    on when the counter exceeds 100. *)
Lemma closing_tick_any (i : Input) (c : Controller) (w : World) :
  state_ c = CLOSING ->
  let c' := fst (fst (tick i (c, w))) in
  let w' := snd (fst (tick i (c, w))) in
  count_ c' = count_ c
  /\ (stop_count_ c' = to_int (stop_count_ c + 1) \/ stop_count_ c' = 0%Z)
  /\ if (100 <? stop_count_ c')%Z
     then state_ c' = CALIBRATED
     else state_ c' = CLOSING
          /\ command_ (vc_ c') = command_ (vc_ c)
          /\ zero_offset_ (actuator_ w') = zero_offset_ (actuator_ w)
          /\ (forall j, calibrated_ <$> joint_states_ w' !! j
                        = calibrated_ <$> joint_states_ w !! j).
Proof.
  intros Hs. unfold GripperCalibrationController.tick. simpl.
  pose proof (update_switch servo_law c (sense i c w)) as H.
  unfold switch_state in H. rewrite Hs in H.
  destruct (update c (sense i c w)) as [[c2 w2] p2]. simpl.
  destruct (ltb _ 0.0001); simpl in H.
  - destruct (100 <? to_int (stop_count_ c + 1))%Z eqn:Hgt.
    + destruct H as (_ & _ & Hcal). destruct (Hcal eq_refl) as [-> ->].
      simpl. rewrite Hgt. auto.
    + destruct H as (_ & Hsame & _). destruct Hsame; simpl in *.
      rewrite sbs_stop_count0, Hgt.
      repeat split; try congruence; auto;
        try (rewrite sbs_actuator0; done);
        intros j; rewrite sbs_flags0; apply (sense_flags i c w).
  - destruct H as (_ & Hsame & _). destruct Hsame; simpl in *.
    rewrite sbs_stop_count0. simpl.
    repeat split; try congruence; auto;
      try (rewrite sbs_actuator0; done);
      intros j; rewrite sbs_flags0; apply (sense_flags i c w).
Qed.

(** *** The warm-up *)

Lemma starting_counts (ins : list Input) (c : Controller) (w : World) :
  state_ c = STARTING -> (0 <= count_ c)%Z ->
  (count_ c + Z.of_nat (length ins) <= 500)%Z ->
  let s' := run ins (c, w) in
  state_ (fst s') = STARTING
  /\ count_ (fst s') = (count_ c + Z.of_nat (length ins))%Z
  /\ stop_count_ (fst s') = stop_count_ c
  /\ command_ (vc_ (fst s')) = command_ (vc_ c)
  /\ zero_offset_ (actuator_ (snd s')) = zero_offset_ (actuator_ w)
  /\ (forall j, calibrated_ <$> joint_states_ (snd s') !! j
                = calibrated_ <$> joint_states_ w !! j).
Proof.
  revert c w. induction ins as [|i ins IH]; intros c w Hs H0 Hle.
  - simpl. repeat split; try done. lia.
  - rewrite run_cons. simpl length in Hle.
    pose proof (starting_tick i c w Hs) as Ht. simpl in Ht.
    rewrite to_int_small in Ht by (unfold INT_MAX; lia).
    replace (500 <? count_ c + 1)%Z with false in Ht
      by (symmetry; apply Z.ltb_ge; lia).
    destruct Ht as ((Hst & Hcnt & Hstop) & Hcmd & Hzero & Hflags).
    destruct (fst (tick i (c, w))) as [c1 w1]. simpl in *.
    specialize (IH c1 w1 Hst). simpl in IH.
    destruct IH as (? & ? & ? & ? & ? & Hf); try lia.
    repeat split; try congruence; try lia;
      intros j; rewrite Hf; apply Hflags.
Qed.

(** X1. From STARTING with a count [k] between 0 and 500 the state is
    STARTING for the next [500 - k] ticks and CLOSING, with both
    counters at zero, after [501 - k] ticks, whatever the samples are:
    on entry to STARTING the warm-up lasts 501 ticks. *)
Theorem warm_up (c : Controller) (w : World) (ins : list Input) :
  state_ c = STARTING -> (0 <= count_ c <= 500)%Z ->
  ((count_ c + Z.of_nat (length ins) <= 500)%Z ->
   state_ (fst (run ins (c, w))) = STARTING
   /\ count_ (fst (run ins (c, w))) = (count_ c + Z.of_nat (length ins))%Z)
  /\ ((count_ c + Z.of_nat (length ins) = 501)%Z ->
      state_ (fst (run ins (c, w))) = CLOSING
      /\ count_ (fst (run ins (c, w))) = 0%Z
      /\ stop_count_ (fst (run ins (c, w))) = 0%Z).
Proof.
  intros Hs Hk. split.
  - intros Hle.
    destruct (starting_counts ins c w Hs) as (? & ? & _); done || lia.
  - intros Hlen.
    induction ins as [|i ins' _] using rev_ind.
    { simpl in Hlen. lia. }
    rewrite length_app in Hlen. simpl in Hlen.
    rewrite (run_app servo_law).
    destruct (starting_counts ins' c w Hs) as (Hst & Hcnt & _); try lia.
    destruct (run ins' (c, w)) as [c1 w1]. simpl in Hst, Hcnt.
    rewrite run_cons. simpl.
    pose proof (starting_tick i c1 w1 Hst) as Ht. simpl in Ht.
    rewrite to_int_small in Ht by (unfold INT_MAX; lia).
    replace (500 <? count_ c1 + 1)%Z with true in Ht
      by (symmetry; apply Z.ltb_lt; lia).
    destruct Ht as (Hres & _). exact Hres.
Qed.

Lemma starting_to_closing (ins : list Input) (c : Controller) (w : World) :
  state_ c = STARTING -> (0 <= count_ c <= 500)%Z ->
  (count_ c + Z.of_nat (length ins) = 501)%Z ->
  let s' := run ins (c, w) in
  state_ (fst s') = CLOSING
  /\ count_ (fst s') = 0%Z /\ stop_count_ (fst s') = 0%Z
  /\ command_ (vc_ (fst s')) = command_ (vc_ c)
  /\ zero_offset_ (actuator_ (snd s')) = zero_offset_ (actuator_ w)
  /\ (forall j, calibrated_ <$> joint_states_ (snd s') !! j
                = calibrated_ <$> joint_states_ w !! j).
Proof.
  intros Hs H0 Hlen. induction ins as [|i ins' _] using rev_ind.
  { simpl in Hlen. lia. }
  rewrite length_app in Hlen. simpl in Hlen.
  rewrite (run_app servo_law).
  destruct (starting_counts ins' c w Hs)
    as (Hst & Hcnt & _ & Hcmd & Hzero & Hflags); try lia.
  destruct (run ins' (c, w)) as [c1 w1]. simpl in Hst, Hcnt, Hcmd, Hzero, Hflags.
  rewrite run_cons. simpl.
  pose proof (starting_tick i c1 w1 Hst) as Ht. simpl in Ht.
  rewrite to_int_small in Ht by (unfold INT_MAX; lia).
  replace (500 <? count_ c1 + 1)%Z with true in Ht
    by (symmetry; apply Z.ltb_lt; lia).
  destruct Ht as ((? & ? & ?) & ? & ? & Hf).
  repeat split; try congruence;
    intros j; rewrite Hf; apply Hflags.
Qed.

(** *** From the first tick to CLOSING *)

Section Constructed.

Variables (n m : Z) (velocity : double) (joint : nat) (others : list nat).
Variable vc : @JointVelocityController ServoMem.
Variable w : World.

Local Abbreviation constructed := (construct n m velocity joint others vc).

Lemma constructed_two_ticks (i1 i2 : Input) :
  let s' := run [i1; i2] (constructed, w) in
  state_ (fst s') = STARTING
  /\ count_ (fst s') = 0%Z /\ stop_count_ (fst s') = 0%Z
  /\ command_ (vc_ (fst s')) = velocity
  /\ zero_offset_ (actuator_ (snd s')) = 0
  /\ ((joint < length (joint_states_ w))%nat ->
      calibrated_ <$> joint_states_ (snd s') !! joint = Some false).
Proof.
  cbv zeta. rewrite !run_cons.
  rewrite (initialized_tick i1 constructed w eq_refl).
  pose proof (beginning_step i2 (with_state BEGINNING constructed)
                (sense i1 constructed w) eq_refl) as H.
  simpl in H. destruct H as (? & ? & ? & ? & ? & Hflag).
  repeat split; try done;
    intros Hj; apply Hflag; rewrite length_alter; done.
Qed.

Lemma constructed_timeline (ins : list Input) :
  let s' := run ins (constructed, w) in
  (length ins = 0%nat -> state_ (fst s') = INITIALIZED)
  /\ (length ins = 1%nat -> state_ (fst s') = BEGINNING)
  /\ ((2 <= length ins <= 502)%nat ->
      state_ (fst s') = STARTING
      /\ count_ (fst s') = (Z.of_nat (length ins) - 2)%Z)
  /\ (length ins = 503%nat ->
      state_ (fst s') = CLOSING
      /\ count_ (fst s') = 0%Z /\ stop_count_ (fst s') = 0%Z
      /\ command_ (vc_ (fst s')) = velocity
      /\ zero_offset_ (actuator_ (snd s')) = 0
      /\ ((joint < length (joint_states_ w))%nat ->
          calibrated_ <$> joint_states_ (snd s') !! joint = Some false)).
Proof.
  destruct ins as [|i1 [|i2 rest]].
  - simpl. repeat split; intros; simpl in *; done || lia.
  - cbv zeta. rewrite run_cons.
    rewrite (initialized_tick i1 constructed w eq_refl).
    repeat split; intros; simpl in *; done || lia.
  - change (i1 :: i2 :: rest) with ([i1; i2] ++ rest).
    rewrite (run_app servo_law).
    pose proof (constructed_two_ticks i1 i2) as H2. cbv zeta in H2.
    cbv zeta.
    destruct (run [i1; i2] (constructed, w)) as [c2 w2].
    simpl in H2. destruct H2 as (Hs & Hc & Hsc & Hcmd & Hz & Hflag).
    simpl length. split; [intros; lia|]. split; [intros; lia|]. split.
    + intros Hlen.
      destruct (starting_counts rest c2 w2 Hs) as (? & ? & _); try lia.
      split; [done|]. lia.
    + intros Hlen.
      destruct (starting_to_closing rest c2 w2 Hs)
        as (? & ? & ? & ? & ? & Hf); try lia.
      repeat split; try congruence;
        intros Hj; rewrite Hf; apply Hflag; done.
Qed.

End Constructed.

(** *** No calibration before its time *)

Lemma closing_bounded (ins : list Input) (c : Controller) (w : World)
    (a : Z) :
  state_ c = CLOSING -> (0 <= stop_count_ c <= a)%Z ->
  (a + Z.of_nat (length ins) <= 100)%Z ->
  let s' := run ins (c, w) in
  state_ (fst s') = CLOSING
  /\ (0 <= stop_count_ (fst s') <= a + Z.of_nat (length ins))%Z.
Proof.
  revert c w a. induction ins as [|i ins IH]; intros c w a Hs Ha Hle.
  - simpl. split; [done|lia].
  - rewrite run_cons. simpl length in Hle.
    pose proof (closing_tick_any i c w Hs) as Ht. simpl in Ht.
    destruct Ht as (_ & Hstop & Hstate).
    rewrite to_int_small in Hstop by (unfold INT_MAX; lia).
    replace (100 <? _)%Z with false in Hstate
      by (symmetry; apply Z.ltb_ge; lia).
    destruct Hstate as (Hst & _).
    destruct (fst (tick i (c, w))) as [c1 w1]. simpl in *.
    destruct (IH c1 w1 (a + 1)%Z Hst) as (? & ?); try lia.
    split; [done|lia].
Qed.

(** *** In CALIBRATED *)

Lemma calibrated_tick (i : Input) (c : Controller) (w : World) :
  state_ c = CALIBRATED ->
  exists t, fst (tick i (c, w)) = (with_last_publish_time t c, sense i c w).
Proof.
  intros Hs. unfold GripperCalibrationController.tick. simpl.
  pose proof (update_switch servo_law c (sense i c w)) as H.
  unfold switch_state in H. rewrite Hs in H.
  destruct (update c (sense i c w)) as [[c2 w2] p2]. simpl.
  assert (Hid : with_last_publish_time (last_publish_time_ c) c = c)
    by (destruct c; reflexivity).
  destruct (pub_calibrated_ c);
    [destruct (_ <? _)%Z; [destruct (trylock _)|]|];
    destruct H as (_ & _ & Hcal);
    (destruct Hcal as [-> ->]; [simpl; done|]).
  - eexists. reflexivity.
  - exists (last_publish_time_ c). rewrite Hid. reflexivity.
  - exists (last_publish_time_ c). rewrite Hid. reflexivity.
  - exists (last_publish_time_ c). rewrite Hid. reflexivity.
Qed.

(** X5. Once CALIBRATED, the controller stays so and writes nothing but
    its own [last_publish_time_]: over any further ticks the servo (its
    setpoint and its memory), both counters, the actuator's zero offset
    and the calibration flag and commanded effort of every joint are as
    they were. *)
Theorem calibrated_leaves_robot_alone (c : Controller) (w : World)
    (ins : list Input) :
  state_ c = CALIBRATED ->
  let s' := run ins (c, w) in
  state_ (fst s') = CALIBRATED
  /\ vc_ (fst s') = vc_ c
  /\ count_ (fst s') = count_ c /\ stop_count_ (fst s') = stop_count_ c
  /\ zero_offset_ (actuator_ (snd s')) = zero_offset_ (actuator_ w)
  /\ (forall j, calibrated_ <$> joint_states_ (snd s') !! j
                = calibrated_ <$> joint_states_ w !! j)
  /\ (forall j, commanded_effort_ <$> joint_states_ (snd s') !! j
                = commanded_effort_ <$> joint_states_ w !! j).
Proof.
  revert c w. induction ins as [|i ins IH]; intros c w Hs; [done|].
  rewrite run_cons. destruct (calibrated_tick i c w Hs) as [t ->].
  specialize (IH (with_last_publish_time t c) (sense i c w) Hs).
  simpl in IH. destruct IH as (? & ? & ? & ? & ? & Hf & He).
  repeat split; try done.
  - intros j. rewrite Hf. apply (sense_flags i c w).
  - intros j. rewrite He. apply (sense_efforts i c w).
Qed.

(** *** The counters *)

Lemma tick_counters_ok (i : Input) (c : Controller) (w : World) :
  counters_ok c -> counters_ok (fst (fst (tick i (c, w)))).
Proof.
  unfold counters_ok at 1. destruct (state_ c) eqn:Hs; intros Hok.
  - rewrite (initialized_tick i c w Hs). done.
  - destruct (beginning_step i c w Hs) as (Hst & Hc & Hsc & _).
    unfold counters_ok. rewrite Hst, Hc, Hsc. lia.
  - destruct (starting_tick i c w Hs) as (Hcase & _).
    destruct Hok as [Hc Hsc].
    rewrite to_int_small in Hcase by (unfold INT_MAX; lia).
    unfold counters_ok.
    destruct (500 <? count_ c + 1)%Z eqn:Hgt.
    + destruct Hcase as (-> & -> & ->). lia.
    + apply Z.ltb_ge in Hgt. destruct Hcase as (-> & -> & ->). lia.
  - destruct (closing_tick_any i c w Hs) as (Hc & Hstop & Hstate).
    destruct Hok as [Hc0 Hsc].
    rewrite to_int_small in Hstop by (unfold INT_MAX; lia).
    unfold counters_ok.
    destruct (100 <? _)%Z eqn:Hgt.
    + apply Z.ltb_lt in Hgt. rewrite Hstate. lia.
    + apply Z.ltb_ge in Hgt. destruct Hstate as (-> & _). lia.
  - destruct (calibrated_tick i c w Hs) as [t ->]. simpl.
    unfold counters_ok. simpl. rewrite Hs. done.
Qed.

(** *** When the event is published *)

Lemma switch_state_publishes (c : @Controller ServoMem) (w : World) :
  snd (switch_state c w) = true
  <-> state_ c = CALIBRATED /\ pub_calibrated_ c = true
      /\ (last_publish_time_ c + Duration_half_second < getTime w)%Z
      /\ trylock w = true.
Proof.
  unfold switch_state. destruct (state_ c) eqn:Hs; simpl.
  1-2: split; [discriminate|intros (? & _); discriminate].
  - destruct (500 <? _)%Z; simpl;
      (split; [discriminate|intros (? & _); discriminate]).
  - destruct (ltb _ _); simpl; [destruct (100 <? _)%Z|]; simpl;
      (split; [discriminate|intros (? & _); discriminate]).
  - destruct (pub_calibrated_ c); simpl;
      [|split; [discriminate|intros (_ & ? & _); discriminate]].
    destruct (_ <? _)%Z eqn:Hlt; simpl.
    + apply Z.ltb_lt in Hlt. destruct (trylock w); simpl.
      * split; done.
      * split; [discriminate|intros (_ & _ & _ & ?); discriminate].
    + apply Z.ltb_ge in Hlt.
      split; [discriminate|intros (_ & _ & ? & _); lia].
Qed.

(** X6. A tick publishes the calibrated event exactly when the
    controller is CALIBRATED, has a publisher, more than half a second
    has passed since [last_publish_time_] and the publisher's lock can
    be taken; it then records the time of the tick as
    [last_publish_time_].  In particular nothing is published before
    calibration is complete. *)
Theorem publishes_exactly_when (i : Input) (s : System) :
  (snd (tick i s) = true
   <-> state_ (fst s) = CALIBRATED /\ pub_calibrated_ (fst s) = true
       /\ (last_publish_time_ (fst s) + Duration_half_second
           < in_time i)%Z
       /\ in_trylock i = true)
  /\ (snd (tick i s) = true ->
      last_publish_time_ (fst (fst (tick i s))) = in_time i).
Proof.
  split.
  - destruct s as [c w]. unfold GripperCalibrationController.tick. simpl.
    pose proof (update_switch servo_law c (sense i c w)) as H.
    pose proof (switch_state_publishes c (sense i c w)) as Hp.
    destruct (switch_state c (sense i c w)) as [[c1 w1] p1].
    destruct (update c (sense i c w)) as [[c2 w2] p2].
    destruct H as (-> & _). simpl in *. exact Hp.
  - intros Hp. pose proof (tick_publish servo_law i s) as H.
    rewrite Hp in H. apply H.
Qed.

(** *** While calibration is under way *)

Lemma calibrating_tick (i : Input) (c : Controller) (w : World) :
  calibrating c w ->
  let s' := fst (tick i (c, w)) in
  state_ (fst s') = CALIBRATED \/ calibrating (fst s') (snd s').
Proof.
  intros (Hstate & Hflag & Hzero & Hcmd).
  pose proof (tick_config i (c, w)) as Hcfg. simpl in Hcfg.
  destruct Hcfg as (Hj & _ & Hv & _).
  destruct Hstate as [Hs|Hs].
  - destruct (starting_tick i c w Hs) as (Hcase & Hc & Hz & Hf).
    right. unfold calibrating. simpl. rewrite Hj, Hv, Hc, Hz, Hf.
    split; [|done].
    destruct (500 <? _)%Z; destruct Hcase as (-> & _); auto.
  - destruct (closing_tick_any i c w Hs) as (_ & _ & Hcase).
    destruct (100 <? _)%Z; [left; exact Hcase|].
    destruct Hcase as (Hst & Hc & Hz & Hf).
    right. unfold calibrating. simpl. rewrite Hj, Hv, Hc, Hz, Hf. auto.
Qed.

Lemma calibrated_stays (ins : list Input) (s : System) :
  state_ (fst s) = CALIBRATED -> state_ (fst (run ins s)) = CALIBRATED.
Proof.
  revert s. induction ins as [|i ins IH]; intros s Hs; [done|].
  rewrite run_cons. apply IH.
  destruct (tick_steps servo_law i s) as [->|[Hne _]]; done.
Qed.

Lemma calibrating_run (ins : list Input) (c : Controller) (w : World) :
  calibrating c w ->
  let s' := run ins (c, w) in
  state_ (fst s') = CALIBRATED \/ calibrating (fst s') (snd s').
Proof.
  revert c w. induction ins as [|i ins IH]; intros c w Hc; [right; done|].
  rewrite run_cons.
  destruct (calibrating_tick i c w Hc) as [Hcal|Hnext].
  - left. apply calibrated_stays. exact Hcal.
  - destruct (fst (tick i (c, w))) as [c1 w1]. apply IH. exact Hnext.
Qed.

(** X4. From the tick that executes BEGINNING until CALIBRATED is
    reached, the primary joint is flagged as not calibrated, the
    actuator's zero offset is zero and the servo is commanded at the
    search velocity, whatever the samples are. *)
Theorem calibration_under_way (c : Controller) (w : World) (i : Input)
    (ins : list Input) :
  state_ c = BEGINNING ->
  (joint_ c < length (joint_states_ w))%nat ->
  let s' := run (i :: ins) (c, w) in
  state_ (fst s') = CALIBRATED \/ calibrating (fst s') (snd s').
Proof.
  intros Hs Hj. cbv zeta. rewrite run_cons.
  pose proof (beginning_step i c w Hs) as Hb. simpl in Hb.
  destruct Hb as (Hst & _ & _ & Hcmd & Hzero & Hflag).
  pose proof (tick_config i (c, w)) as Hcfg. simpl in Hcfg.
  destruct Hcfg as (Hjoint & _ & Hv & _).
  destruct (fst (tick i (c, w))) as [c1 w1] eqn:Ht. simpl in *.
  apply calibrating_run. unfold calibrating.
  rewrite Hjoint, Hv. auto.
Qed.

End Servo.

End GripperCalibrationMore.

(** ** Initialisation of the gripper calibration controller *)

Module GripperCalibrationInitProofs.

Import Parameters GripperCalibrationController GripperCalibrationInit.
Import GripperCalibrationProofs GripperCalibrationMore.

Section Init.

Context {ServoMem : Type}.
Variable node_ : NodeHandle.
Variable getJointState : string -> option nat.
Variable getActuator : string -> option nat.
Variable vc_init : option (@JointVelocityController ServoMem).

Local Abbreviation init := (init node_ getJointState getActuator vc_init).
Local Abbreviation push_other_joints := (push_other_joints getJointState).
Local Abbreviation resolved_other_joints :=
  (resolved_other_joints node_ getJointState).
Local Abbreviation other_joints_convert := (other_joints_convert node_).
Local Abbreviation required_resolved :=
  (required_resolved node_ getJointState getActuator).

Lemma push_other_joints_thrown (names : list XmlRpcValue) :
  foldl (fun acc v =>
           others ← acc;
           name ← as_string v;
           Some (match getJointState name with
                 | Some j => others ++ [j]
                 | None => others
                 end))
        None names = None.
Proof. induction names as [|v names IH]; [done|]. simpl. exact IH. Qed.

(** The loop pushes the joints of the resolvable names, in order, and
    throws exactly when an element does not convert. *)
Lemma push_other_joints_spec (names : list XmlRpcValue) (others : list nat) :
  (Forall (fun v => is_Some (as_string v)) names ->
   push_other_joints names others
   = Some (others ++ omap (fun v => as_string v ≫= getJointState) names))
  /\ (~ Forall (fun v => is_Some (as_string v)) names ->
      push_other_joints names others = None).
Proof.
  unfold GripperCalibrationInit.push_other_joints. revert others.
  induction names as [|v names IH]; intros others.
  - split; [intros _; simpl; rewrite app_nil_r; done|].
    intros H. destruct H. constructor.
  - simpl. destruct (as_string v) as [name|] eqn:Hv; simpl.
    + destruct (IH (match getJointState name with
                    | Some j => others ++ [j]
                    | None => others
                    end)) as [IHok IHthrow].
      split.
      * intros Hall. inversion Hall; subst. rewrite IHok by done.
        destruct (getJointState name); simpl; [|done].
        rewrite <- app_assoc. done.
      * intros Hnot. apply IHthrow. intros Hall. apply Hnot.
        constructor; [rewrite Hv; eexists; done|done].
    + split.
      * intros Hall. inversion Hall as [|? ? [? Hsome] ?]; subst.
        rewrite Hv in Hsome. discriminate.
      * intros _. apply push_other_joints_thrown.
Qed.

(** What the handling of the [other_joints] parameter leaves in
    [other_joints_] when it does not throw. *)
Lemma other_joints_resolved (c : @Controller ServoMem) (l : list nat) :
  match getParam_xml node_ "other_joints" with
  | Some (TypeArray names) => push_other_joints names (other_joints_ c)
  | Some _ => Some (other_joints_ c)
  | None => Some (other_joints_ c)
  end = Some l ->
  l = other_joints_ c ++ resolved_other_joints.
Proof.
  unfold GripperCalibrationInit.resolved_other_joints.
  destruct (getParam_xml node_ "other_joints") as [[| | | | |names]|];
    try (intros [= <-]; rewrite app_nil_r; done).
  intros Hpush.
  destruct (push_other_joints_spec names (other_joints_ c)) as [Hok Hthrow].
  destruct (decide (Forall (fun v => is_Some (as_string v)) names))
    as [Hall|Hnot].
  - rewrite Hok in Hpush by done. congruence.
  - rewrite Hthrow in Hpush by done. discriminate.
Qed.

(** A successful [init] went through every lookup. *)
Lemma init_ready (c c' : @Controller ServoMem) :
  init c = Ready c' ->
  exists velocity joint others vc,
    getParam_double node_ "velocity" = Some velocity
    /\ getParam_string node_ "joint" ≫= getJointState = Some joint
    /\ match getParam_xml node_ "other_joints" with
       | Some (TypeArray names) => push_other_joints names (other_joints_ c)
       | Some _ => Some (other_joints_ c)
       | None => Some (other_joints_ c)
       end = Some others
    /\ vc_init = Some vc
    /\ c' = {| state_ := state_ c; count_ := count_ c;
               stop_count_ := stop_count_ c;
               last_publish_time_ := last_publish_time_ c;
               search_velocity_ := velocity; joint_ := joint;
               other_joints_ := others; vc_ := vc;
               pub_calibrated_ := true |}.
Proof.
  unfold GripperCalibrationInit.init.
  destruct (getParam_double node_ "velocity") as [v|]; [|discriminate].
  destruct (getParam_string node_ "joint") as [jn|]; [|discriminate].
  simpl. destruct (getJointState jn) as [j|]; [|discriminate].
  destruct (getParam_string node_ "actuator") as [an|]; [|discriminate].
  destruct (getActuator an) as [a|]; [|discriminate].
  destruct (match getParam_xml node_ "other_joints" with
            | Some (TypeArray names) => _
            | Some _ => _
            | None => _
            end) as [others|] eqn:Ho; [|discriminate].
  destruct vc_init as [vc|]; [|discriminate].
  intros [= <-]. exists v, j, others, vc. done.
Qed.

(** What the ticks after [init] rely on. *)
Lemma init_sets_up_aux (c c' : @Controller ServoMem) :
  init c = Ready c' ->
  other_joints_ c' = other_joints_ c ++ resolved_other_joints
  /\ getParam_string node_ "joint" ≫= getJointState = Some (joint_ c')
  /\ state_ c' = state_ c /\ count_ c' = count_ c
  /\ stop_count_ c' = stop_count_ c
  /\ last_publish_time_ c' = last_publish_time_ c
  /\ pub_calibrated_ c' = true.
Proof.
  intros Hinit.
  destruct (init_ready c c' Hinit)
    as (v & j & others & vc & _ & Hj & Ho & _ & ->).
  simpl. rewrite (other_joints_resolved c others Ho). done.
Qed.

(** X8. When [init] succeeds, [other_joints_] is what it was before with
    the joints of the [other_joints] parameter appended: those of its
    names that the robot knows, in their order, the unknown ones left
    out, and nothing when the parameter is missing or not an array.  The
    search velocity and the primary joint are the ones the parameters
    name, the publisher is there, and state, counters and
    [last_publish_time_] are untouched. *)
Theorem init_sets_up (c c' : @Controller ServoMem) :
  init c = Ready c' ->
  other_joints_ c' = other_joints_ c ++ resolved_other_joints
  /\ getParam_double node_ "velocity" = Some (search_velocity_ c')
  /\ getParam_string node_ "joint" ≫= getJointState = Some (joint_ c')
  /\ vc_init = Some (vc_ c')
  /\ pub_calibrated_ c' = true
  /\ state_ c' = state_ c /\ count_ c' = count_ c
  /\ stop_count_ c' = stop_count_ c
  /\ last_publish_time_ c' = last_publish_time_ c.
Proof.
  intros Hinit.
  destruct (init_ready c c' Hinit)
    as (v & j & others & vc & Hv & Hj & Ho & Hvc & ->).
  apply other_joints_resolved in Ho. simpl.
  split; [exact Ho|]. split; [exact Hv|]. split; [exact Hj|].
  split; [exact Hvc|]. repeat split; reflexivity.
Qed.

(** X9. [init] answers [false] when one of [velocity], [joint] and
    [actuator] is missing or names something the robot does not know,
    and when the servo's own [init] fails.  The [other_joints]
    parameter never makes it answer [false]: missing, of another type
    than array, or naming unknown joints, it is passed over; only an
    array element that does not convert to a string ends [init], with
    the exception of the conversion. *)
Theorem init_outcome (c : @Controller ServoMem) :
  (~ required_resolved -> init c = Refused)
  /\ (required_resolved -> ~ other_joints_convert -> init c = Thrown)
  /\ (required_resolved -> other_joints_convert -> vc_init = None ->
      init c = Refused)
  /\ (required_resolved -> other_joints_convert -> is_Some vc_init ->
      exists c', init c = Ready c').
Proof.
  unfold GripperCalibrationInit.init,
    GripperCalibrationInit.required_resolved,
    GripperCalibrationInit.other_joints_convert.
  destruct (getParam_double node_ "velocity") as [v|];
    [|repeat split; try done; intros H; destruct H as ([? ?] & _); done].
  destruct (getParam_string node_ "joint") as [jn|]; simpl;
    [|repeat split; try done; intros H; destruct H as (_ & [? ?] & _); done].
  destruct (getJointState jn) as [j|];
    [|repeat split; try done; intros H; destruct H as (_ & [? ?] & _); done].
  destruct (getParam_string node_ "actuator") as [an|]; simpl;
    [|repeat split; try done; intros H; destruct H as (_ & _ & [? ?]); done].
  destruct (getActuator an) as [a|];
    [|repeat split; try done; intros H; destruct H as (_ & _ & [? ?]); done].
  assert (Hreq : is_Some (Some v) /\ is_Some (Some j) /\ is_Some (Some a))
    by (repeat split; eexists; done).
  destruct (getParam_xml node_ "other_joints") as [[| | | | |names]|];
    try (repeat split; try done;
         [intros _ _ ->; done
         |intros _ _ [vc ->]; eexists; done]).
  destruct (push_other_joints_spec names (other_joints_ c)) as [Hok Hthrow].
  repeat split.
  - done.
  - intros _ Hnot. rewrite Hthrow by done. done.
  - intros _ Hall ->. rewrite Hok by done. done.
  - intros _ Hall [vc ->]. rewrite Hok by done. eexists. done.
Qed.

(** The handles [init] stores point into the robot's joint states when
    the robot's lookup does. *)
Lemma init_handles_valid (c c' : @Controller ServoMem) (w : World) :
  init c = Ready c' ->
  (forall name j, getJointState name = Some j ->
                  (j < length (joint_states_ w))%nat) ->
  Forall (fun j => (j < length (joint_states_ w))%nat) (other_joints_ c) ->
  handles_valid c' w.
Proof.
  intros Hinit Hrobot Hold.
  destruct (init_sets_up_aux c c' Hinit) as (Hothers & Hjoint & _).
  unfold handles_valid. constructor.
  - destruct (getParam_string node_ "joint") as [jn|]; [|discriminate].
    simpl in Hjoint. eapply Hrobot. exact Hjoint.
  - rewrite Hothers. apply Forall_app. split; [exact Hold|].
    unfold GripperCalibrationInit.resolved_other_joints.
    destruct (getParam_xml node_ "other_joints") as [[| | | | |names]|];
      try constructor.
    apply Forall_forall. intros j Hj.
    apply list_elem_of_omap in Hj. destruct Hj as (v & _ & Hv).
    destruct (as_string v) as [name|]; [|discriminate].
    simpl in Hv. eapply Hrobot. exact Hv.
Qed.

(** *** From [init] to CALIBRATED *)

Variable servo_law :
  ServoMem -> double -> JointState -> Time -> ServoMem * double.

(** A constructed controller that [init] has set up is the constructed
    one with the members [init] stores. *)
Lemma init_of_constructed (n m : Z) (v0 : double) (j0 : nat)
    (vc0 : @JointVelocityController ServoMem) (c : @Controller ServoMem) :
  init (construct n m v0 j0 [] vc0) = Ready c ->
  c = construct n m (search_velocity_ c) (joint_ c) (other_joints_ c)
        (vc_ c).
Proof.
  intros Hinit.
  destruct (init_sets_up_aux _ _ Hinit)
    as (_ & _ & Hstate & Hcount & Hstop & Hlast_time & Hpub).
  simpl in Hstate, Hcount, Hstop, Hlast_time.
  destruct c. simpl in *. unfold construct. congruence.
Qed.

(** X2. A controller that is constructed and set up by [init], whatever
    its uninitialised counters hold and whatever the samples are, is in
    BEGINNING after one tick, in STARTING after 2 to 502 ticks and in
    CLOSING after 503 ticks; on entry to CLOSING both counters are zero,
    the servo is commanded at the velocity of the [velocity] parameter,
    the actuator's zero offset is zero and the primary joint is flagged
    as not calibrated.  The robot's lookup is assumed to answer joints
    that exist. *)
Theorem initialised_reaches_closing (n m : Z) (v0 : double) (j0 : nat)
    (vc0 : @JointVelocityController ServoMem)
    (c : @Controller ServoMem) (w : World) (ins : list Input) :
  init (construct n m v0 j0 [] vc0) = Ready c ->
  (forall name j, getJointState name = Some j ->
                  (j < length (joint_states_ w))%nat) ->
  let s' := run servo_law ins (c, w) in
  (length ins = 1%nat -> state_ (fst s') = BEGINNING)
  /\ ((2 <= length ins <= 502)%nat -> state_ (fst s') = STARTING)
  /\ (length ins = 503%nat ->
      state_ (fst s') = CLOSING
      /\ count_ (fst s') = 0%Z /\ stop_count_ (fst s') = 0%Z
      /\ getParam_double node_ "velocity" = Some (command_ (vc_ (fst s')))
      /\ zero_offset_ (actuator_ (snd s')) = 0
      /\ calibrated_ <$> joint_states_ (snd s') !! joint_ c = Some false).
Proof.
  intros Hinit Hrobot.
  pose proof (init_handles_valid _ _ w Hinit Hrobot (Forall_nil_2 _))
    as Hvalid.
  destruct (init_ready _ _ Hinit) as (v & j & others & vc & Hv & _ & _ & _ & Hc').
  assert (Hvel : getParam_double node_ "velocity" = Some (search_velocity_ c))
    by (rewrite Hc'; exact Hv).
  pose proof (init_of_constructed _ _ _ _ _ _ Hinit) as Hc.
  destruct (constructed_timeline servo_law n m (search_velocity_ c)
              (joint_ c) (other_joints_ c) (vc_ c) w ins)
    as (_ & H1 & H2 & H3).
  rewrite <- Hc in H1, H2, H3.
  split; [exact H1|]. split; [intros Hlen; apply H2; exact Hlen|].
  intros Hlen.
  destruct (H3 Hlen) as (Hs & Hcount & Hstop & Hcmd & Hzero & Hflag).
  split; [exact Hs|]. split; [exact Hcount|]. split; [exact Hstop|].
  split; [rewrite Hcmd; exact Hvel|]. split; [exact Hzero|].
  apply Hflag. unfold handles_valid in Hvalid.
  apply Forall_cons in Hvalid. exact (proj1 Hvalid).
Qed.

(** X3. No run of fewer than 604 ticks takes a controller that is
    constructed and set up by [init] to CALIBRATED, whatever the samples
    and the uninitialised counters are. *)
Theorem no_calibration_before_tick_604 (n m : Z) (v0 : double) (j0 : nat)
    (vc0 : @JointVelocityController ServoMem)
    (c : @Controller ServoMem) (w : World) (ins : list Input) :
  init (construct n m v0 j0 [] vc0) = Ready c ->
  (length ins < 604)%nat ->
  state_ (fst (run servo_law ins (c, w))) <> CALIBRATED.
Proof.
  intros Hinit Hlen.
  pose proof (init_of_constructed _ _ _ _ _ _ Hinit) as Hc.
  assert (Htimeline := constructed_timeline servo_law n m
                         (search_velocity_ c) (joint_ c) (other_joints_ c)
                         (vc_ c) w).
  rewrite <- Hc in Htimeline.
  destruct (decide (length ins <= 502)%nat) as [Hshort|Hlong].
  - destruct (Htimeline ins) as (H0 & H1 & H2 & _).
    destruct (length ins) as [|[|k]] eqn:Hk.
    + rewrite H0 by done. discriminate.
    + rewrite H1 by done. discriminate.
    + destruct H2 as [-> _]; [lia|]. discriminate.
  - rewrite <- (take_drop 503 ins), (run_app servo_law).
    destruct (Htimeline (take 503 ins)) as (_ & _ & _ & H3).
    destruct H3 as (Hs & _ & Hsc & _); [rewrite length_take; lia|].
    destruct (run servo_law (take 503 ins) _) as [c1 w1]. simpl in Hs, Hsc.
    destruct (closing_bounded servo_law (drop 503 ins) c1 w1 0 Hs)
      as [-> _];
      try (rewrite ?length_drop; lia).
    discriminate.
Qed.

(** X7. Whatever the uninitialised counters of a controller that is
    constructed and set up by [init] hold, after any run [count_] is
    between 0 and 500 with [stop_count_] zero in STARTING, [count_] is
    zero with [stop_count_] between 0 and 100 in CLOSING, and they are 0
    and 101 in CALIBRATED: no increment of a counter ever leaves the
    range of an [int]. *)
Theorem counters_stay_in_range (n m : Z) (v0 : double) (j0 : nat)
    (vc0 : @JointVelocityController ServoMem)
    (c : @Controller ServoMem) (w : World) (ins : list Input) :
  init (construct n m v0 j0 [] vc0) = Ready c ->
  counters_ok (fst (run servo_law ins (c, w))).
Proof.
  intros Hinit.
  assert (Hinv : forall s : System,
            counters_ok (fst s) -> counters_ok (fst (run servo_law ins s))).
  { induction ins as [|i ins' IH]; intros [c0 w0] Hok; [done|].
    rewrite (run_cons servo_law). apply IH.
    pose proof (tick_counters_ok servo_law i c0 w0 Hok) as H.
    destruct (fst (tick servo_law i (c0, w0))). exact H. }
  apply Hinv.
  destruct (init_sets_up_aux _ _ Hinit) as (_ & _ & Hstate & _).
  unfold counters_ok. simpl in *. rewrite Hstate. exact I.
Qed.

(** X10. A controller that is constructed, set up by [init] and then
    ticked is CALIBRATED after 503 ticks of any samples followed by 101
    stalled ones.  At that point the primary joint and every joint of
    the [other_joints] parameter that the robot knows are flagged as
    calibrated, the actuator's zero offset is the raw position of the
    last tick and the servo is commanded to stop.  The robot's lookup
    is assumed to answer joints that exist. *)
Theorem init_then_calibrate (n m : Z) (v0 : double) (j0 : nat)
    (vc0 : @JointVelocityController ServoMem)
    (c : @Controller ServoMem) (w : World)
    (warm rest : list Input) (last : Input) :
  init (construct n m v0 j0 [] vc0) = Ready c ->
  (forall name j, getJointState name = Some j ->
                  (j < length (joint_states_ w))%nat) ->
  length warm = 503%nat -> length rest = 100%nat ->
  Forall (fun i => stalled i = true) rest -> stalled last = true ->
  let s' := run servo_law (warm ++ rest ++ [last]) (c, w) in
  state_ (fst s') = CALIBRATED
  /\ zero_offset_ (actuator_ (snd s')) = in_position last
  /\ command_ (vc_ (fst s')) = 0
  /\ (forall j, j ∈ joint_ c :: resolved_other_joints ->
        calibrated_ <$> joint_states_ (snd s') !! j = Some true).
Proof.
  intros Hinit Hrobot Hwarm Hrest Hstalled Hlast.
  pose proof (init_handles_valid _ _ w Hinit Hrobot) as Hvalid.
  specialize (Hvalid (Forall_nil_2 _)).
  destruct (init_sets_up_aux _ _ Hinit)
    as (Hothers & _ & Hstate & Hcount & Hstop & Hlast_time & Hpub).
  simpl in Hothers, Hstate, Hcount, Hstop, Hlast_time.
  assert (Hc : c = construct n m (search_velocity_ c) (joint_ c)
                     (other_joints_ c) (vc_ c)).
  { destruct c. simpl in *. unfold construct. congruence. }
  unfold handles_valid in Hvalid. rewrite Forall_forall in Hvalid.
  cbv zeta. rewrite !(run_app servo_law).
  destruct (constructed_timeline servo_law n m (search_velocity_ c)
              (joint_ c) (other_joints_ c) (vc_ c) w warm)
    as (_ & _ & _ & Hclosing).
  rewrite <- Hc in Hclosing.
  destruct (Hclosing Hwarm) as (Hs1 & _ & Hsc1 & _).
  pose proof (run_config servo_law warm (c, w)) as Hcfg1. simpl in Hcfg1.
  destruct Hcfg1 as (Hj1 & Ho1 & _ & _ & Hl1).
  destruct (run servo_law warm (c, w)) as [c1 w1].
  simpl in Hs1, Hsc1, Hj1, Ho1, Hl1.
  assert (Hjv : (joint_ c1 < length (joint_states_ w1))%nat).
  { rewrite Hj1, Hl1. apply Hvalid. apply list_elem_of_here. }
  destruct (closing_counts servo_law rest c1 w1 Hs1 Hjv)
    as (Hs2 & Hsc2 & Hj2 & Ho2 & Hl2); try done; try lia.
  destruct (run servo_law rest (c1, w1)) as [c2 w2].
  simpl in Hs2, Hsc2, Hj2, Ho2, Hl2.
  assert (Hjv2 : (joint_ c2 < length (joint_states_ w2))%nat)
    by (rewrite Hj2, Hl2; done).
  pose proof (closing_tick servo_law c2 w2 last Hs2 Hjv2) as Ht.
  simpl in Ht. rewrite Hlast, Hsc2, Hsc1, Hrest in Ht.
  destruct Ht as (_ & _ & _ & _ & Hst & Hzero & _ & Hcmd & Hflags).
  unfold GripperCalibrationController.run. simpl foldl.
  repeat split; try done.
  intros j Hin. apply Hflags.
  - rewrite Hj2, Ho2, Hj1, Ho1, Hothers. simpl. exact Hin.
  - rewrite Hl2, Hl1. apply Hvalid. rewrite Hothers. simpl. exact Hin.
Qed.

End Init.

End GripperCalibrationInitProofs.

(** ** More on the Cartesian wrench controller *)

Module CartesianWrenchMore.

Import CartesianWrenchController CartesianWrenchProofs.

(** With one entry per joint, the double loop overwrites the whole
    array: what it leaves does not depend on what was there. *)
Lemma projected_full (n : nat) J W (e : JntArray) :
  length e = n -> projected n J W e = accumulated J W <$> seq 0 n.
Proof.
  intros Hlen. apply list_eq. intros i.
  rewrite projected_lookup by lia. rewrite list_lookup_fmap.
  destruct (decide (i < n)%nat) as [Hi|Hi].
  - rewrite lookup_seq_lt by done. done.
  - rewrite lookup_seq_ge by lia. simpl.
    apply lookup_ge_None. lia.
Qed.

Lemma accumulated_zero J i : accumulated J Wrench_Zero i == 0.
Proof.
  rewrite accumulated_transpose. unfold transpose_projection.
  change (wrench_at Wrench_Zero 0) with (0 : double).
  change (wrench_at Wrench_Zero 1) with (0 : double).
  change (wrench_at Wrench_Zero 2) with (0 : double).
  change (wrench_at Wrench_Zero 3) with (0 : double).
  change (wrench_at Wrench_Zero 4) with (0 : double).
  change (wrench_at Wrench_Zero 5) with (0 : double).
  ring.
Qed.

Section Kinematics.

Variable sign : double -> double.
Variable JntToJac : JntArray -> Jacobian.

Hypothesis sign_positive : forall a, 0 < a -> sign a == 1.
Hypothesis sign_negative : forall a, a < 0 -> sign a == -1.

Local Abbreviation update := (update sign JntToJac).
Local Abbreviation sized := (sized JntToJac).
Local Abbreviation task_efforts := (task_efforts JntToJac).
Local Abbreviation apply_constraint := (apply_constraint sign).

(** The entries the constraint does not touch, for any desired wrench. *)
Lemma unconstrained_entry (c : Controller) (ch : Chain) (i : nat) :
  sized c ch -> allCalibrated ch = true ->
  (i < nr_of_joints c)%nat -> Z.of_nat i <> joint (constraint_ c) ->
  exists c' eff,
    update c ch = Some (c', Some eff)
    /\ eff !! i
       = Some (accumulated (JntToJac (position_ <$> ch)) (wrench_desi_ c) i).
Proof.
  intros Hsz Hcal Hi Hne. pose proof Hsz as (Hch & Hpos & Heff & HJ).
  destruct (apply_constraint_defined sign (constraint_ c) (nr_of_joints c)
              (position_ <$> ch) (task_efforts c ch))
    as (eff & Hc & _ & Hother).
  { rewrite length_fmap. done. }
  { rewrite (task_efforts_length JntToJac). done. }
  rewrite (update_calibrated sign JntToJac) by done.
  rewrite Hc. simpl. do 2 eexists. split; [reflexivity|].
  rewrite (Hother i Hne). apply (task_efforts_lookup JntToJac); done.
Qed.

(** X11. After [starting()], and until a command arrives, a tick on a
    calibrated chain sends zero effort to every joint but the
    constrained one, whatever the Jacobian is. *)
Theorem starting_sends_zero (c : Controller) (ch : Chain) (i : nat) :
  sized c ch -> allCalibrated ch = true ->
  (i < nr_of_joints c)%nat -> Z.of_nat i <> joint (constraint_ c) ->
  exists c' eff e,
    update (starting c) ch = Some (c', Some eff)
    /\ eff !! i = Some e /\ e == 0.
Proof.
  intros Hsz Hcal Hi Hne.
  destruct (unconstrained_entry (starting c) ch i) as (c' & eff & Hu & He);
    try done.
  exists c', eff. eexists. split; [exact Hu|]. split; [exact He|].
  apply accumulated_zero.
Qed.

(** X12. [command] replaces the whole desired wrench, so that only the
    last message counts, and the next tick on a calibrated chain sends
    to every joint [i] but the constrained one the projection of that
    message: its force on rows 0 to 2 of the Jacobian and its torque on
    rows 3 to 5. *)
Theorem command_then_update (c : Controller) (msg earlier : Wrench)
    (ch : Chain) (i : nat) :
  sized c ch -> allCalibrated ch = true ->
  (i < nr_of_joints c)%nat -> Z.of_nat i <> joint (constraint_ c) ->
  command msg (command earlier c) = command msg c
  /\ exists c' eff e,
       update (command msg c) ch = Some (c', Some eff)
       /\ eff !! i = Some e
       /\ let J := JntToJac (position_ <$> ch) in
          e == jac_at J 0 i * x (force msg) + jac_at J 1 i * y (force msg)
               + jac_at J 2 i * z (force msg)
               + jac_at J 3 i * x (torque msg)
               + jac_at J 4 i * y (torque msg)
               + jac_at J 5 i * z (torque msg).
Proof.
  intros Hsz Hcal Hi Hne. split; [reflexivity|].
  destruct (unconstrained_entry (command msg c) ch i)
    as (c' & eff & Hu & He); try done.
  exists c', eff. eexists. split; [exact Hu|]. split; [exact He|].
  unfold accumulated, wrench_at, vector_at. simpl. ring.
Qed.

(** X13. A tick keeps nothing from one tick to the next in its arrays:
    two controllers with the same constraint, desired wrench and number
    of joints come out of a tick on the same calibrated chain as the
    same controller, having sent the same efforts, whatever their
    arrays [jnt_pos_], [jnt_eff_] and [jacobian_] held before. *)
Theorem update_forgets_arrays (c1 c2 : Controller) (ch : Chain) :
  sized c1 ch -> sized c2 ch -> allCalibrated ch = true ->
  constraint_ c1 = constraint_ c2 -> wrench_desi_ c1 = wrench_desi_ c2 ->
  nr_of_joints c1 = nr_of_joints c2 ->
  update c1 ch = update c2 ch
  /\ exists c' eff, update c1 ch = Some (c', Some eff).
Proof.
  intros Hsz1 Hsz2 Hcal Hk HW Hn.
  pose proof Hsz1 as (Hch & Hpos & Heff & HJ).
  pose proof Hsz2 as (_ & _ & Heff2 & _).
  rewrite !(update_calibrated sign JntToJac) by done.
  assert (Ht : task_efforts c1 ch = task_efforts c2 ch).
  { unfold CartesianWrenchController.task_efforts.
    rewrite !projected_full by done. rewrite Hn, HW. done. }
  rewrite Hk, HW, Hn, Ht. split; [reflexivity|].
  destruct (apply_constraint_defined sign (constraint_ c2) (nr_of_joints c2)
              (position_ <$> ch) (task_efforts c2 ch))
    as (eff & -> & _).
  { rewrite length_fmap. congruence. }
  { rewrite (task_efforts_length JntToJac). done. }
  simpl. do 2 eexists. reflexivity.
Qed.

(** With arrays of one entry per joint a tick is defined. *)
Lemma update_keeps_sized_aux (c : Controller) (ch : Chain) :
  sized c ch -> exists c' out, update c ch = Some (c', out).
Proof.
  intros Hsz. pose proof Hsz as (Hch & Hpos & Heff & HJ).
  destruct (allCalibrated ch) eqn:Hcal.
  - rewrite (update_calibrated sign JntToJac) by done.
    destruct (apply_constraint_defined sign (constraint_ c) (nr_of_joints c)
                (position_ <$> ch) (task_efforts c ch))
      as (eff & -> & _).
    { rewrite length_fmap. done. }
    { rewrite (task_efforts_length JntToJac). done. }
    simpl. do 2 eexists. reflexivity.
  - unfold CartesianWrenchController.update. rewrite Hcal. simpl.
    do 2 eexists. reflexivity.
Qed.

(** X14. With arrays of one entry per joint a tick never reads or writes
    outside them, and it hands them on in that shape: it returns a
    controller with the same constraint, desired wrench and number of
    joints whose arrays again have one entry per joint, ready for the
    next snapshot of the chain. *)
Theorem update_keeps_sized (c : Controller) (ch : Chain) :
  sized c ch ->
  exists c' out,
    update c ch = Some (c', out)
    /\ constraint_ c' = constraint_ c
    /\ wrench_desi_ c' = wrench_desi_ c
    /\ nr_of_joints c' = nr_of_joints c
    /\ (forall ch' : Chain,
          length ch' = nr_of_joints c ->
          well_shaped (JntToJac (position_ <$> ch')) (nr_of_joints c) ->
          sized c' ch').
Proof.
  intros Hsz. pose proof Hsz as (Hch & Hpos & Heff & HJ).
  destruct (allCalibrated ch) eqn:Hcal.
  - rewrite (update_calibrated sign JntToJac) by done.
    destruct (apply_constraint_defined sign (constraint_ c) (nr_of_joints c)
                (position_ <$> ch) (task_efforts c ch))
      as (eff & -> & Hlen & _).
    { rewrite length_fmap. done. }
    { rewrite (task_efforts_length JntToJac). done. }
    simpl. do 2 eexists. split; [reflexivity|]. simpl.
    split; [done|]. split; [done|]. split; [done|].
    intros ch' Hch' HJ'. split; [done|].
    split; [simpl; rewrite length_fmap; done|]. split; [done|exact HJ'].
  - unfold CartesianWrenchController.update. rewrite Hcal. simpl.
    do 2 eexists. split; [reflexivity|].
    split; [done|]. split; [done|]. split; [done|].
    intros ch' Hch' HJ'. split; [done|]. split; [done|].
    split; [done|exact HJ'].
Qed.

(** The constraint step on a joint of the chain, by the two tests of the
    code. *)
Lemma apply_constraint_guarded (k : Constraint) (n : nat)
    (pos eff : JntArray) (p e : double) :
  (0 <= joint k < Z.of_nat n)%Z -> (Z.of_nat n <= INT_MAX)%Z ->
  pos !! Z.to_nat (joint k) = Some p ->
  eff !! Z.to_nat (joint k) = Some e ->
  let d := sign (hard_limit k - soft_limit k) in
  let spring := stiffness k * (soft_limit k - p) in
  apply_constraint k n pos eff
  = Some (if ltb (d * (hard_limit k - p)) 0
          then <[ Z.to_nat (joint k) := spring ]> eff
          else if ltb (d * (soft_limit k - p)) 0
               then <[ Z.to_nat (joint k) := e + spring ]> eff
               else eff).
Proof.
  intros Hk Hmax Hp He d spring.
  assert (Hlen : (Z.to_nat (joint k) < length eff)%nat)
    by (eapply lookup_lt_Some; done).
  unfold CartesianWrenchController.apply_constraint.
  rewrite to_int_small by (unfold INT_MAX in *; lia).
  replace ((0 <=? joint k)%Z && (joint k <? Z.of_nat n)%Z)
    with true by (symmetry; rewrite andb_true_iff, Z.leb_le, Z.ltb_lt; lia).
  cbv zeta. unfold jnt_read. rewrite Hp. simpl. fold d. fold spring.
  destruct (ltb (d * (hard_limit k - p)) 0).
  - apply jnt_write_defined. done.
  - destruct (ltb (d * (soft_limit k - p)) 0); [|done].
    rewrite He. simpl. apply jnt_write_defined. done.
Qed.

(** X15. With a positive stiffness, once the constrained joint is past
    its soft limit the term the constraint contributes never points in
    the direction from the soft to the hard limit: the effort sent for
    that joint is the spring term alone or the projected effort plus the
    spring term, and [direction * spring] is not positive. *)
Theorem spring_pushes_back (c : Controller) (ch : Chain)
    (position task : double) :
  sized c ch -> allCalibrated ch = true ->
  (0 <= joint (constraint_ c) < Z.of_nat (nr_of_joints c))%Z ->
  (Z.of_nat (nr_of_joints c) <= INT_MAX)%Z ->
  0 < stiffness (constraint_ c) ->
  let soft := soft_limit (constraint_ c) in
  let hard := hard_limit (constraint_ c) in
  let k := Z.to_nat (joint (constraint_ c)) in
  let direction := sign (hard - soft) in
  let spring := stiffness (constraint_ c) * (soft - position) in
  (position_ <$> ch) !! k = Some position ->
  task_efforts c ch !! k = Some task ->
  crossed direction soft position ->
  exists c' eff e,
    update c ch = Some (c', Some eff)
    /\ eff !! k = Some e
    /\ (e = spring \/ e = task + spring)
    /\ direction * spring <= 0.
Proof.
  intros Hsz Hcal Hk Hmax Hstiff soft hard k direction spring
    Hpos Htask Hsoft.
  assert (Hlen : (k < length (task_efforts c ch))%nat)
    by (eapply lookup_lt_Some; done).
  rewrite (update_calibrated sign JntToJac) by done.
  rewrite (apply_constraint_guarded _ _ _ _ position task) by done.
  fold soft hard k. fold direction. fold spring.
  assert (Hback : direction * spring <= 0).
  { unfold crossed in Hsoft. subst spring.
    pose proof (Qmult_lt_0_compat _ _ Hstiff Hsoft) as Hprod. lra. }
  destruct (ltb (direction * (hard - position)) 0).
  - simpl. do 3 eexists. split; [reflexivity|].
    split; [apply list_lookup_insert_eq; done|]. auto.
  - destruct (ltb (direction * (soft - position)) 0) eqn:Htest.
    + simpl. do 3 eexists. split; [reflexivity|].
      split; [apply list_lookup_insert_eq; done|]. auto.
    + exfalso. apply ltb_ge in Htest. unfold crossed in Hsoft. lra.
Qed.

End Kinematics.

End CartesianWrenchMore.

(** ** Initialisation of the Cartesian wrench controller *)

Module CartesianWrenchInitProofs.

Import Parameters CartesianWrenchController CartesianWrenchInit.
Import CartesianWrenchProofs CartesianWrenchMore.

Section Init.

Variable NodeHandle_of : string -> NodeHandle.
Variable chain_init : string -> string -> option nat.
Variable resize : nat -> JntArray -> JntArray.
Variable resize_jacobian : nat -> Jacobian -> Jacobian.

(** What is assumed of KDL's [resize]: the array it leaves has the size
    asked for. *)
Hypothesis resize_length : forall n a, length (resize n a) = n.

Variable sign : double -> double.
Variable JntToJac : JntArray -> Jacobian.

Local Abbreviation init := (init chain_init resize resize_jacobian).
Local Abbreviation initXml :=
  (initXml NodeHandle_of chain_init resize resize_jacobian).
Local Abbreviation chain_of := (chain_of chain_init).

Lemma init_chain (n : NodeHandle) (c : Controller) :
  match chain_of n with
  | None => init n c = None
  | Some nj =>
      exists c', init n c = Some c'
        /\ nr_of_joints c' = nj
        /\ jnt_pos_ c' = resize nj (jnt_pos_ c)
        /\ jnt_eff_ c' = resize nj (jnt_eff_ c)
        /\ wrench_desi_ c' = wrench_desi_ c
        /\ joint (constraint_ c')
           = param (getParam_int n) "constraint/joint" (-1)%Z
  end.
Proof.
  unfold CartesianWrenchInit.chain_of, CartesianWrenchInit.init.
  destruct (getParam_string n "root_name") as [root|]; simpl; [|done].
  destruct (getParam_string n "tip_name") as [tip|]; simpl; [|done].
  destruct (chain_init root tip) as [nj|]; [|done].
  eexists. split; [reflexivity|]. simpl. done.
Qed.

(** X16. [initXml] answers [false] exactly when the configuration has no
    name or an empty one, when [root_name] or [tip_name] is missing from
    the parameters of that name, or when no chain can be built between
    the two; the constraint parameters are never required. *)
Theorem initXml_refuses (name : option string) (c : Controller) :
  initXml name c = None
  <-> name = None \/ name = Some EmptyString
      \/ exists s, name = Some s /\ chain_of (NodeHandle_of s) = None.
Proof.
  unfold CartesianWrenchInit.initXml.
  destruct name as [s|]; simpl; [|split; auto].
  destruct (String.eqb s EmptyString) eqn:Hs.
  - apply String.eqb_eq in Hs. subst. split; auto.
  - apply String.eqb_neq in Hs.
    pose proof (init_chain (NodeHandle_of s) c) as H.
    destruct (chain_of (NodeHandle_of s)) as [nj|] eqn:Hc.
    + destruct H as (c' & -> & _). split; [discriminate|].
      intros [?|[[= ?]|(s' & [= <-] & ?)]]; congruence.
    + split; [|done]. intros _. right. right. exists s. done.
Qed.

(** X17. A controller that [initXml] has set up has arrays of one entry
    per joint of its chain, so that its ticks stay inside them; and
    when the parameters give no [constraint/joint], no tick applies a
    constraint: on every calibrated snapshot of the chain the efforts
    sent are the projected ones. *)
Theorem initXml_then_update (name : string) (c c' : Controller)
    (ch : Chain) :
  initXml (Some name) c = Some c' ->
  length ch = nr_of_joints c' ->
  well_shaped (JntToJac (position_ <$> ch)) (nr_of_joints c') ->
  sized JntToJac c' ch
  /\ (exists c'' out, update sign JntToJac c' ch = Some (c'', out))
  /\ (getParam_int (NodeHandle_of name) "constraint/joint" = None ->
      allCalibrated ch = true ->
      exists c'',
        update sign JntToJac c' ch
        = Some (c'', Some (task_efforts JntToJac c' ch))).
Proof.
  unfold CartesianWrenchInit.initXml. simpl.
  destruct (String.eqb name EmptyString); [discriminate|].
  intros Hinit Hch HJ.
  pose proof (init_chain (NodeHandle_of name) c) as H.
  destruct (chain_of (NodeHandle_of name)) as [nj|];
    [|rewrite H in Hinit; discriminate].
  destruct H as (c0 & Hc0 & Hn & Hpos & Heff & _ & Hjoint).
  rewrite Hc0 in Hinit. injection Hinit as <-.
  assert (Hsz : sized JntToJac c0 ch).
  { split; [done|]. rewrite Hpos, Heff, !resize_length. done. }
  split; [exact Hsz|]. split.
  - destruct (update_keeps_sized_aux sign JntToJac c0 ch Hsz)
      as (c'' & out & Hu).
    exists c'', out. exact Hu.
  - intros Hnone Hcal.
    rewrite (update_calibrated sign JntToJac) by done.
    rewrite (apply_constraint_unguarded sign).
    + simpl. eexists. reflexivity.
    + left. rewrite Hjoint. unfold param. rewrite Hnone. simpl. lia.
Qed.

End Init.

End CartesianWrenchInitProofs.

(** ** The further properties on the scenarios *)

Module MoreExamples.

Import Parameters GripperCalibrationController GripperCalibrationProofs.
Import GripperCalibrationMore GripperCalibrationInit.
Import GripperCalibrationInitProofs GripperCalibrationExamples.
Import Scenarios InitScenarios.

Lemma warm_up_witness :
  state_ starting_controller = STARTING
  /\ (0 <= count_ starting_controller <= 500)%Z
  /\ (count_ starting_controller + Z.of_nat (length (repeat moving 501))
      = 501)%Z
  /\ state_ (fst (run proportional (repeat moving 501)
                    (starting_controller, gripper)))
     = CLOSING.
Proof.
  assert (Hk : (0 <= count_ starting_controller <= 500)%Z)
    by (simpl; lia).
  assert (Hlen : (count_ starting_controller
                  + Z.of_nat (length (repeat moving 501)) = 501)%Z)
    by (vm_compute; reflexivity).
  split; [reflexivity|]. split; [exact Hk|]. split; [exact Hlen|].
  exact (proj1 (proj2 (warm_up proportional starting_controller gripper
                         (repeat moving 501) eq_refl Hk) Hlen)).
Defined.

Lemma calibration_under_way_witness :
  state_ (with_state BEGINNING fresh) = BEGINNING
  /\ (joint_ (with_state BEGINNING fresh)
      < length (joint_states_ gripper))%nat
  /\ (state_ (fst (run proportional (moving :: repeat moving 10)
                     (with_state BEGINNING fresh, gripper)))
      = CALIBRATED
      \/ calibrating
           (fst (run proportional (moving :: repeat moving 10)
                   (with_state BEGINNING fresh, gripper)))
           (snd (run proportional (moving :: repeat moving 10)
                   (with_state BEGINNING fresh, gripper)))).
Proof.
  assert (Hj : (joint_ (with_state BEGINNING fresh)
                < length (joint_states_ gripper))%nat)
    by (simpl; repeat constructor).
  split; [reflexivity|]. split; [exact Hj|].
  exact (calibration_under_way proportional (with_state BEGINNING fresh)
           gripper moving (repeat moving 10) eq_refl Hj).
Defined.

Lemma calibrated_leaves_robot_alone_witness :
  state_ (fst calibrated_system) = CALIBRATED
  /\ vc_ (fst (run proportional three_ticks
                 (fst calibrated_system, snd calibrated_system)))
     = vc_ (fst calibrated_system).
Proof.
  split; [reflexivity|].
  exact (proj1 (proj2 (calibrated_leaves_robot_alone proportional
                         (fst calibrated_system) (snd calibrated_system)
                         three_ticks eq_refl))).
Defined.

Lemma publishes_exactly_when_witness :
  state_ (fst calibrated_system) = CALIBRATED
  /\ pub_calibrated_ (fst calibrated_system) = true
  /\ (last_publish_time_ (fst calibrated_system) + Duration_half_second
      < in_time (at_time 1000000000 true))%Z
  /\ in_trylock (at_time 1000000000 true) = true
  /\ snd (tick proportional (at_time 1000000000 true) calibrated_system)
     = true.
Proof.
  assert (Hcond :
    state_ (fst calibrated_system) = CALIBRATED
    /\ pub_calibrated_ (fst calibrated_system) = true
    /\ (last_publish_time_ (fst calibrated_system) + Duration_half_second
        < in_time (at_time 1000000000 true))%Z
    /\ in_trylock (at_time 1000000000 true) = true).
  { repeat split; reflexivity. }
  destruct Hcond as (H1 & H2 & H3 & H4).
  split; [exact H1|]. split; [exact H2|]. split; [exact H3|].
  split; [exact H4|].
  exact (proj2 (proj1 (publishes_exactly_when proportional
                         (at_time 1000000000 true) calibrated_system))
           (conj H1 (conj H2 (conj H3 H4)))).
Defined.

(** [init] on the constructed controller gives [fresh]: the unknown
    dependent joint is left out. *)
Lemma init_gives_fresh :
  init gripper_node gripper_joints gripper_actuators (Some (mkVC 0 tt))
    constructed
  = Ready fresh.
Proof. reflexivity. Qed.

Lemma init_sets_up_witness :
  init gripper_node gripper_joints gripper_actuators (Some (mkVC 0 tt))
    constructed
  = Ready fresh
  /\ other_joints_ fresh
     = other_joints_ constructed
       ++ resolved_other_joints gripper_node gripper_joints.
Proof.
  split; [exact init_gives_fresh|].
  exact (proj1 (init_sets_up gripper_node gripper_joints gripper_actuators
                  (Some (mkVC 0 tt)) constructed fresh init_gives_fresh)).
Defined.

Lemma gripper_required_resolved :
  required_resolved gripper_node gripper_joints gripper_actuators.
Proof. repeat split; eexists; reflexivity. Qed.

Lemma gripper_other_joints_convert : other_joints_convert gripper_node.
Proof.
  unfold other_joints_convert. simpl. repeat constructor; eexists; reflexivity.
Qed.

Lemma init_outcome_witness :
  required_resolved gripper_node gripper_joints gripper_actuators
  /\ other_joints_convert gripper_node
  /\ is_Some (Some (mkVC (0 : double) tt))
  /\ exists c',
       init gripper_node gripper_joints gripper_actuators
         (Some (mkVC 0 tt)) constructed
       = Ready c'.
Proof.
  assert (Hvc : is_Some (Some (mkVC (0 : double) tt)))
    by (eexists; reflexivity).
  split; [exact gripper_required_resolved|].
  split; [exact gripper_other_joints_convert|]. split; [exact Hvc|].
  exact (proj2 (proj2 (proj2
           (init_outcome gripper_node gripper_joints gripper_actuators
              (Some (mkVC 0 tt)) constructed)))
           gripper_required_resolved gripper_other_joints_convert Hvc).
Defined.

Lemma gripper_joints_exist (name : string) (j : nat) :
  gripper_joints name = Some j -> (j < length (joint_states_ gripper))%nat.
Proof.
  unfold gripper_joints. simpl.
  repeat (destruct (String.eqb name _); [intros [= <-]; lia|]).
  discriminate.
Qed.

Lemma initialised_reaches_closing_witness :
  init gripper_node gripper_joints gripper_actuators (Some (mkVC 0 tt))
    constructed
  = Ready fresh
  /\ length (repeat moving 503) = 503%nat
  /\ state_ (fst (run proportional (repeat moving 503) (fresh, gripper)))
     = CLOSING.
Proof.
  assert (Hlen : length (repeat moving 503) = 503%nat)
    by apply repeat_length.
  split; [exact init_gives_fresh|]. split; [exact Hlen|].
  exact (proj1 (proj2 (proj2
           (initialised_reaches_closing gripper_node gripper_joints
              gripper_actuators (Some (mkVC 0 tt)) proportional
              7 9 0 5%nat (mkVC 0 tt) fresh gripper (repeat moving 503)
              init_gives_fresh gripper_joints_exist))
           Hlen)).
Defined.

Lemma no_calibration_before_tick_604_witness :
  init gripper_node gripper_joints gripper_actuators (Some (mkVC 0 tt))
    constructed
  = Ready fresh
  /\ (length (repeat still 603) < 604)%nat
  /\ state_ (fst (run proportional (repeat still 603) (fresh, gripper)))
     <> CALIBRATED.
Proof.
  assert (Hlen : (length (repeat still 603) < 604)%nat)
    by (rewrite repeat_length; lia).
  split; [exact init_gives_fresh|]. split; [exact Hlen|].
  exact (no_calibration_before_tick_604 gripper_node gripper_joints
           gripper_actuators (Some (mkVC 0 tt)) proportional
           7 9 0 5%nat (mkVC 0 tt) fresh gripper (repeat still 603)
           init_gives_fresh Hlen).
Defined.

Lemma counters_stay_in_range_witness :
  init gripper_node gripper_joints gripper_actuators (Some (mkVC 0 tt))
    constructed
  = Ready fresh
  /\ counters_ok (fst (run proportional (repeat moving 10) (fresh, gripper))).
Proof.
  split; [exact init_gives_fresh|].
  exact (counters_stay_in_range gripper_node gripper_joints
           gripper_actuators (Some (mkVC 0 tt)) proportional
           7 9 0 5%nat (mkVC 0 tt) fresh gripper (repeat moving 10)
           init_gives_fresh).
Defined.

Lemma init_then_calibrate_witness :
  init gripper_node gripper_joints gripper_actuators (Some (mkVC 0 tt))
    (construct 7 9 0 5%nat [] (mkVC 0 tt))
  = Ready fresh
  /\ length (repeat moving 503) = 503%nat
  /\ length (repeat still 100) = 100%nat
  /\ Forall (fun i => stalled i = true) (repeat still 100)
  /\ stalled still = true
  /\ state_ (fst (run proportional
                    (repeat moving 503 ++ repeat still 100 ++ [still])
                    (fresh, gripper)))
     = CALIBRATED.
Proof.
  assert (Hw : length (repeat moving 503) = 503%nat) by apply repeat_length.
  assert (Hr : length (repeat still 100) = 100%nat) by apply repeat_length.
  split; [exact init_gives_fresh|]. split; [exact Hw|]. split; [exact Hr|].
  split; [exact hundred_still|]. split; [exact still_is_stalled|].
  exact (proj1 (init_then_calibrate gripper_node gripper_joints
                  gripper_actuators (Some (mkVC 0 tt)) proportional
                  7 9 0 5%nat (mkVC 0 tt) fresh gripper
                  (repeat moving 503) (repeat still 100) still
                  init_gives_fresh gripper_joints_exist Hw Hr
                  hundred_still still_is_stalled)).
Defined.

End MoreExamples.

Module MoreWrenchExamples.

Import (notations) PrimFloat.
Import Parameters CartesianWrenchController CartesianWrenchProofs.
Import ConstraintArithmetic.
Import CartesianWrenchMore CartesianWrenchInit CartesianWrenchInitProofs.
Import CartesianWrenchExamples Scenarios InitScenarios.

Lemma leftovers_sized (k : Z) (W : Wrench) :
  sized identity_solver (leftovers k W) six_joints.
Proof.
  repeat split; try reflexivity. simpl. repeat constructor.
Defined.

Lemma starting_sends_zero_witness :
  sized identity_solver (constrained 2 push_z) six_joints
  /\ allCalibrated six_joints = true
  /\ (0 < nr_of_joints (constrained 2 push_z))%nat
  /\ Z.of_nat 0 <> joint (constraint_ (constrained 2 push_z))
  /\ exists c' eff e,
       update KDL_sign identity_solver (starting (constrained 2 push_z))
         six_joints
       = Some (c', Some eff)
       /\ eff !! 0%nat = Some e /\ e == 0.
Proof.
  assert (Hi : (0 < nr_of_joints (constrained 2 push_z))%nat)
    by (simpl; repeat constructor).
  assert (Hne : Z.of_nat 0 <> joint (constraint_ (constrained 2 push_z)))
    by discriminate.
  split; [apply constrained_sized|]. split; [reflexivity|].
  split; [exact Hi|]. split; [exact Hne|].
  exact (starting_sends_zero KDL_sign identity_solver
           (constrained 2 push_z) six_joints 0
           (constrained_sized _ _) eq_refl Hi Hne).
Defined.

Lemma command_then_update_witness :
  sized identity_solver (constrained 2 push_z) six_joints
  /\ allCalibrated six_joints = true
  /\ (0 < nr_of_joints (constrained 2 push_z))%nat
  /\ Z.of_nat 0 <> joint (constraint_ (constrained 2 push_z))
  /\ command unit_force_x (command push_z (constrained 2 push_z))
     = command unit_force_x (constrained 2 push_z).
Proof.
  assert (Hi : (0 < nr_of_joints (constrained 2 push_z))%nat)
    by (simpl; repeat constructor).
  assert (Hne : Z.of_nat 0 <> joint (constraint_ (constrained 2 push_z)))
    by discriminate.
  split; [apply constrained_sized|]. split; [reflexivity|].
  split; [exact Hi|]. split; [exact Hne|].
  exact (proj1 (command_then_update KDL_sign identity_solver
                  (constrained 2 push_z) unit_force_x push_z six_joints 0
                  (constrained_sized _ _) eq_refl Hi Hne)).
Defined.

Lemma update_forgets_arrays_witness :
  sized identity_solver (constrained 2 push_z) six_joints
  /\ sized identity_solver (leftovers 2 push_z) six_joints
  /\ allCalibrated six_joints = true
  /\ constraint_ (constrained 2 push_z) = constraint_ (leftovers 2 push_z)
  /\ wrench_desi_ (constrained 2 push_z) = wrench_desi_ (leftovers 2 push_z)
  /\ nr_of_joints (constrained 2 push_z) = nr_of_joints (leftovers 2 push_z)
  /\ update KDL_sign identity_solver (constrained 2 push_z) six_joints
     = update KDL_sign identity_solver (leftovers 2 push_z) six_joints.
Proof.
  split; [apply constrained_sized|]. split; [apply leftovers_sized|].
  split; [reflexivity|]. split; [reflexivity|]. split; [reflexivity|].
  split; [reflexivity|].
  exact (proj1 (update_forgets_arrays KDL_sign identity_solver
                  (constrained 2 push_z) (leftovers 2 push_z) six_joints
                  (constrained_sized _ _) (leftovers_sized _ _)
                  eq_refl eq_refl eq_refl eq_refl)).
Defined.

Lemma update_keeps_sized_witness :
  sized identity_solver (leftovers 2 push_z) six_joints
  /\ exists c' out,
       update KDL_sign identity_solver (leftovers 2 push_z) six_joints
       = Some (c', out)
       /\ nr_of_joints c' = nr_of_joints (leftovers 2 push_z).
Proof.
  split; [apply leftovers_sized|].
  destruct (update_keeps_sized KDL_sign identity_solver
              (leftovers 2 push_z) six_joints (leftovers_sized _ _))
    as (c' & out & Hu & _ & _ & Hn & _).
  exists c', out. split; [exact Hu|exact Hn].
Defined.

Lemma spring_pushes_back_witness :
  sized identity_solver (constrained 2 push_z) six_joints
  /\ allCalibrated six_joints = true
  /\ (0 <= 2 < Z.of_nat 6)%Z
  /\ (Z.of_nat 6 <= INT_MAX)%Z
  /\ 0 < stiffness (constraint_ (constrained 2 push_z))
  /\ (position_ <$> six_joints) !! 2%nat = Some 1.6
  /\ task_efforts identity_solver (constrained 2 push_z) six_joints !! 2%nat
     = Some (accumulated identity_jacobian push_z 2)
  /\ crossed (KDL_sign (1.5 - 1.0)) 1.0 1.6
  /\ KDL_sign (1.5 - 1.0) * (10 * (1.0 - 1.6)) <= 0.
Proof.
  assert (Hk : (0 <= 2 < Z.of_nat 6)%Z) by (simpl; lia).
  assert (Hm : (Z.of_nat 6 <= INT_MAX)%Z) by (unfold INT_MAX; simpl; lia).
  assert (Hst : 0 < stiffness (constraint_ (constrained 2 push_z)))
    by reflexivity.
  assert (Hc : crossed (KDL_sign (1.5 - 1.0)) 1.0 1.6) by reflexivity.
  split; [apply constrained_sized|]. split; [reflexivity|]. split; [exact Hk|].
  split; [exact Hm|]. split; [exact Hst|]. split; [reflexivity|].
  split; [reflexivity|]. split; [exact Hc|].
  destruct (spring_pushes_back KDL_sign identity_solver
              (constrained 2 push_z) six_joints 1.6
              (accumulated identity_jacobian push_z 2)
              (constrained_sized _ _) eq_refl Hk Hm Hst eq_refl eq_refl Hc)
    as (_ & _ & _ & _ & _ & _ & Hback).
  exact Hback.
Defined.

(** In binary64 the spring term can vanish: with stiffness 0.5, soft
    limit 0, hard limit 1 and the joint at the smallest positive double,
    the joint is past the soft limit, the term underflows to zero and
    the effort is left as it was. *)
Lemma binary64_spring_may_vanish :
  let past := PrimFloat.sub 0%float smallest_positive in
  let direction := sign_in binary64 (PrimFloat.sub 1%float 0%float) in
  let spring := PrimFloat.mul 0.5%float past in
  PrimFloat.ltb (PrimFloat.mul direction past) 0%float = true
  /\ PrimFloat.eqb spring 0%float = true
  /\ PrimFloat.ltb (PrimFloat.mul direction spring) 0%float = false
  /\ apply_constraint_in binary64 (sign_in binary64) 0 0%float 1%float
       0.5%float 1 [smallest_positive] [3%float]
     = Some [3%float].
Proof. repeat split; vm_compute; reflexivity. Qed.

Lemma zero_fill_length (n : nat) (a : JntArray) :
  length (zero_fill n a) = n.
Proof.
  unfold zero_fill. rewrite length_app, length_take, length_replicate. lia.
Qed.

Lemma initXml_refuses_witness :
  initXml (fun _ => wrench_node) six_joint_chain zero_fill zero_fill_jacobian
    None unconfigured
  = None.
Proof.
  exact (proj2 (initXml_refuses (fun _ => wrench_node) six_joint_chain
                  zero_fill zero_fill_jacobian None unconfigured)
           (or_introl eq_refl)).
Defined.

Lemma initXml_gives_configured :
  initXml (fun _ => wrench_node) six_joint_chain zero_fill zero_fill_jacobian
    (Some "arm"%string) unconfigured
  = Some configured.
Proof. reflexivity. Qed.

Lemma initXml_then_update_witness :
  initXml (fun _ => wrench_node) six_joint_chain zero_fill zero_fill_jacobian
    (Some "arm"%string) unconfigured
  = Some configured
  /\ length six_joints = nr_of_joints configured
  /\ well_shaped (identity_solver (position_ <$> six_joints))
       (nr_of_joints configured)
  /\ sized identity_solver configured six_joints.
Proof.
  assert (HJ : well_shaped (identity_solver (position_ <$> six_joints))
                 (nr_of_joints configured))
    by (split; [reflexivity|simpl; repeat constructor]).
  split; [exact initXml_gives_configured|]. split; [reflexivity|].
  split; [exact HJ|].
  exact (proj1 (initXml_then_update (fun _ => wrench_node) six_joint_chain
                  zero_fill zero_fill_jacobian zero_fill_length
                  KDL_sign identity_solver "arm"%string unconfigured
                  configured six_joints initXml_gives_configured
                  eq_refl HJ)).
Defined.

End MoreWrenchExamples.
